(** * Reflection analysis of libredex: a shallow embedding

    This development embeds [libredex/ReflectionAnalysis.cpp] and states
    its specification against the embedding.  The layout follows the
    source: the abstract objects and their equality (namespace
    [reflection]), the per-instruction transfer function and the replay
    cache (class [impl::Analyzer]), and the query facade (class
    [ReflectionAnalysis]).

    Interned pool objects ([DexString], [DexType], [DexMethodRef],
    [DexFieldRef]) are compared by pointer in the source.  The interner
    hands out one canonical pointer per content, so a pointer is modelled
    by the content it stands for and pointer equality by decidable
    equality of contents; a nullable pointer is an [option]. *)

From stdpp Require Import base decidable option list gmap strings.
From Stdlib Require Import NArith Ascii String Lia.

Open Scope string_scope.
Open Scope N_scope.

Set Warnings "-clear-no-such-hyp".

(** ** Outcomes of partial operations

    The source aborts on a failed [always_assert] and has undefined
    behaviour on a null dereference and on a read through an iterator
    that stands at the end of its container.  These are outcomes a
    caller can observe and are kept apart from ordinary results. *)

Inductive Fault : Type :=
  | AssertionFailure
  | NullDereference
  | EndIteratorDereference.

Inductive result (A : Type) : Type :=
  | Ok (a : A)
  | Abort (f : Fault).

Arguments Ok {A} a.
Arguments Abort {A} f.

#[global] Instance result_ret : MRet result := fun A a => Ok a.
#[global] Instance result_bind : MBind result := fun A B k r =>
  match r with
  | Ok a => k a
  | Abort f => Abort f
  end.
#[global] Instance result_fmap : FMap result := fun A B g r =>
  match r with
  | Ok a => Ok (g a)
  | Abort f => Abort f
  end.

#[global] Instance Fault_eq_dec : EqDecision Fault.
Proof. solve_decision. Defined.

(** ** The DEX pool ([DexClass.h], [DexUtil.h]) *)

Module Dex.

Definition DexString : Type := string.
Definition DexType : Type := string.

Record DexProto : Type := mkProto {
  get_rtype : DexType;
  get_args : list DexType
}.

Record DexMethodRef : Type := mkMethodRef {
  method_class : DexType;
  method_name : DexString;
  get_proto : DexProto
}.

Record DexFieldRef : Type := mkFieldRef {
  field_class : DexType;
  field_name : DexString;
  field_type : DexType
}.

#[global] Instance DexProto_eq_dec : EqDecision DexProto.
Proof. solve_decision. Defined.
#[global] Instance DexMethodRef_eq_dec : EqDecision DexMethodRef.
Proof. solve_decision. Defined.
#[global] Instance DexFieldRef_eq_dec : EqDecision DexFieldRef.
Proof. solve_decision. Defined.

(** [DexMethod::make_method(cls, name, args, rtype)]: the canonical
    reference for a signature. *)
Definition make_method (cls name : string) (args : list string)
    (rtype : string) : DexMethodRef :=
  mkMethodRef cls name (mkProto rtype args).

(** The string table of the global context.  [DexString::get_string]
    returns the interned string or [nullptr]; [make_string] and
    [make_type] always return the canonical pointer for their
    content. *)
Definition StringPool : Type := gset string.

Definition get_string (pool : gset string) (s : string)
    : option DexString :=
  if bool_decide (s ∈ pool) then Some s else None.

Definition make_string (s : string) : DexString := s.
Definition make_type (name : DexString) : DexType := name.

(** Modelled from the spec: the type-system queries of section 6
    ([is_void], [is_object] for reference types, [is_array],
    [array_component]) live in [DexUtil.h]; they inspect the first
    character of the descriptor. *)
Definition first_char (t : DexType) : option ascii :=
  match t with
  | EmptyString => None
  | String c _ => Some c
  end.

Definition is_void (t : DexType) : bool := bool_decide (t = "V").

Definition is_array (t : DexType) : bool :=
  bool_decide (first_char t = Some "["%char).

Definition is_object (t : DexType) : bool :=
  bool_decide (first_char t = Some "L"%char) || is_array t.

Definition get_array_component_type (t : DexType) : DexType :=
  match t with
  | EmptyString => EmptyString
  | String _ rest => rest
  end.

Definition get_class_type : DexType := "Ljava/lang/Class;".
Definition get_string_type : DexType := "Ljava/lang/String;".

(** Modelled from the spec: [JavaNameUtil::external_to_internal]
    (section 6) wraps the external name in ['L'] and [';'] and then
    replaces every ['.'] of the wrapped name by ['/']. *)
Fixpoint replace_char (from to : ascii) (s : string) : string :=
  match s with
  | EmptyString => EmptyString
  | String c rest =>
      String (if bool_decide (c = from) then to else c)
             (replace_char from to rest)
  end.

Definition external_to_internal (external_name : string) : string :=
  replace_char "."%char "/"%char ("L" +:+ external_name +:+ ";").

End Dex.

Export Dex.

(** ** Abstract objects (namespace [reflection]) *)

Module reflection.

Inductive AbstractObjectKind : Type :=
  | OBJECT
  | STRING
  | CLASS
  | FIELD
  | METHOD.

Inductive ClassObjectSource : Type :=
  | NOT_APPLICABLE
  | NON_REFLECTION
  | REFLECTION.

#[global] Instance AbstractObjectKind_eq_dec : EqDecision AbstractObjectKind.
Proof. solve_decision. Defined.
#[global] Instance ClassObjectSource_eq_dec : EqDecision ClassObjectSource.
Proof. solve_decision. Defined.

(** The struct has four stored fields whatever its tag; the two
    pointers are nullable. *)
Record AbstractObject : Type := mkAbstractObject {
  kind : AbstractObjectKind;
  dex_type : option DexType;
  dex_string : option DexString;
  cls_source : ClassObjectSource
}.

#[global] Instance AbstractObject_eq_dec : EqDecision AbstractObject.
Proof. solve_decision. Defined.

(** Modelled from the spec: the constructors are declared in
    [ReflectionAnalysis.h]; each fills the attributes of its variant
    (section 3.1) and leaves the others null or not applicable. *)
Definition string_object (s : option DexString) : AbstractObject :=
  mkAbstractObject STRING None s NOT_APPLICABLE.

Definition plain_object (t : option DexType) : AbstractObject :=
  mkAbstractObject OBJECT t None NOT_APPLICABLE.

Definition class_object (t : option DexType) (src : ClassObjectSource)
    : AbstractObject :=
  mkAbstractObject CLASS t None src.

Definition member_object (k : AbstractObjectKind) (t : option DexType)
    (s : option DexString) : AbstractObject :=
  mkAbstractObject k t s NOT_APPLICABLE.

(** [is_reflection_output] *)
Definition is_reflection_output (obj : AbstractObject) : bool :=
  if bool_decide (kind obj = FIELD) || bool_decide (kind obj = METHOD)
  then true
  else bool_decide (kind obj = CLASS)
       && bool_decide (cls_source obj = REFLECTION).

(** [operator==] *)
Definition abstract_object_eq (x y : AbstractObject) : bool :=
  if negb (bool_decide (kind x = kind y)) then false
  else
    match kind x with
    | OBJECT | CLASS =>
        bool_decide (dex_type x = dex_type y)
        && bool_decide (cls_source x = cls_source y)
    | STRING => bool_decide (dex_string x = dex_string y)
    | FIELD | METHOD =>
        bool_decide (dex_type x = dex_type y)
        && bool_decide (dex_string x = dex_string y)
    end.

(** [operator!=] *)
Definition abstract_object_neq (x y : AbstractObject) : bool :=
  negb (abstract_object_eq x y).

(** [operator<<].  [SHOW] of a pool pointer prints its content and
    prints nothing for a null pointer.  The string variant is printed
    between double quotes.
    Modelled from the spec: [std::quoted] escapes embedded quotes and
    backslashes with a backslash (section 8.3). *)
Definition show_ptr (p : option string) : string :=
  match p with
  | Some s => s
  | None => EmptyString
  end.

Definition dquote : ascii := Ascii.ascii_of_N 34.
Definition backslash : ascii := Ascii.ascii_of_N 92.

Fixpoint escape (s : string) : string :=
  match s with
  | EmptyString => EmptyString
  | String c rest =>
      if bool_decide (c = dquote) || bool_decide (c = backslash)
      then String backslash (String c (escape rest))
      else String c (escape rest)
  end.

Definition quoted (s : string) : string :=
  String dquote (escape s +:+ String dquote EmptyString).

Definition show (x : AbstractObject) : result string :=
  match kind x with
  | OBJECT => Ok ("OBJECT{" +:+ show_ptr (dex_type x) +:+ "}")
  | STRING =>
      match dex_string x with
      | None => Abort NullDereference
      | Some str =>
          if bool_decide (str = EmptyString)
          then Ok (String dquote (String dquote EmptyString))
          else Ok (quoted str)
      end
  | CLASS =>
      if bool_decide (cls_source x = NOT_APPLICABLE)
      then Abort AssertionFailure
      else
        let cls_tag :=
          if bool_decide (cls_source x = REFLECTION)
          then "CLASS_REFLECT" else "CLASS" in
        Ok (cls_tag +:+ "{" +:+ show_ptr (dex_type x) +:+ "}")
  | FIELD =>
      Ok ("FIELD{" +:+ show_ptr (dex_type x) +:+ ":"
          +:+ show_ptr (dex_string x) +:+ "}")
  | METHOD =>
      Ok ("METHOD{" +:+ show_ptr (dex_type x) +:+ ":"
          +:+ show_ptr (dex_string x) +:+ "}")
  end.

End reflection.

Export reflection.

(** ** The constant lattice and the register environment

    Modelled from the spec: [ConstantAbstractDomain] and
    [PatriciaTreeMapAbstractEnvironment] belong to the sparta library
    (sections 3.2, 3.3, 4.1 and 4.2).  The domain has three levels and
    compares constants with the [operator==] of the abstract objects.
    An environment is either unreachable (bottom) or a finite map that
    stores the registers bound to a constant; a register without a
    binding holds top.  Binding a register to bottom makes the whole
    environment bottom, and a bottom environment ignores updates. *)

Module sparta.

Inductive AbstractObjectDomain : Type :=
  | Bottom
  | Constant (v : AbstractObject)
  | Top.

#[global] Instance AbstractObjectDomain_eq_dec
  : EqDecision AbstractObjectDomain.
Proof. solve_decision. Defined.

Definition get_constant (d : AbstractObjectDomain)
    : option AbstractObject :=
  match d with
  | Constant v => Some v
  | Bottom | Top => None
  end.

Definition domain_leq (d1 d2 : AbstractObjectDomain) : bool :=
  match d1, d2 with
  | Bottom, _ => true
  | _, Top => true
  | Constant a, Constant b => abstract_object_eq a b
  | _, _ => false
  end.

Definition domain_join (d1 d2 : AbstractObjectDomain)
    : AbstractObjectDomain :=
  match d1, d2 with
  | Bottom, d | d, Bottom => d
  | Constant a, Constant b =>
      if abstract_object_eq a b then Constant a else Top
  | _, _ => Top
  end.

Definition register_t : Type := N.

Inductive AbstractObjectEnvironment : Type :=
  | EnvBottom
  | EnvValue (bindings : gmap N AbstractObject).

Definition env_top : AbstractObjectEnvironment := EnvValue ∅.

Definition is_bottom (E : AbstractObjectEnvironment) : bool :=
  match E with
  | EnvBottom => true
  | EnvValue _ => false
  end.

Definition env_get (r : register_t) (E : AbstractObjectEnvironment)
    : AbstractObjectDomain :=
  match E with
  | EnvBottom => Bottom
  | EnvValue m =>
      match m !! r with
      | Some v => Constant v
      | None => Top
      end
  end.

Definition env_set (r : register_t) (d : AbstractObjectDomain)
    (E : AbstractObjectEnvironment) : AbstractObjectEnvironment :=
  match E with
  | EnvBottom => EnvBottom
  | EnvValue m =>
      match d with
      | Bottom => EnvBottom
      | Constant v => EnvValue (<[r := v]> m)
      | Top => EnvValue (delete r m)
      end
  end.

(** The order of the environment lattice is pointwise. *)
Definition env_leq (E1 E2 : AbstractObjectEnvironment) : Prop :=
  ∀ r : register_t, domain_leq (env_get r E1) (env_get r E2) = true.

End sparta.

Export sparta.

(** ** Instructions ([IRInstruction.h], [IROpcode.h])

    The transfer function looks at an instruction through its accessors
    only.  An instruction is the record of what they return.  Opcodes the
    [switch] of the analyzer does not name are gathered in
    [OPCODE_OTHER]. *)

Module IR.

Inductive IROpcode : Type :=
  | IOPCODE_LOAD_PARAM
  | IOPCODE_LOAD_PARAM_OBJECT
  | IOPCODE_LOAD_PARAM_WIDE
  | OPCODE_MOVE_OBJECT
  | IOPCODE_MOVE_RESULT_PSEUDO_OBJECT
  | OPCODE_MOVE_RESULT_OBJECT
  | OPCODE_CONST_STRING
  | OPCODE_CONST_CLASS
  | OPCODE_CHECK_CAST
  | OPCODE_AGET_OBJECT
  | OPCODE_IGET_OBJECT
  | OPCODE_SGET_OBJECT
  | OPCODE_NEW_INSTANCE
  | OPCODE_NEW_ARRAY
  | OPCODE_FILLED_NEW_ARRAY
  | OPCODE_INVOKE_VIRTUAL
  | OPCODE_INVOKE_STATIC
  | OPCODE_INVOKE_INTERFACE
  | OPCODE_INVOKE_SUPER
  | OPCODE_INVOKE_DIRECT
  | OPCODE_OTHER (code : N).

#[global] Instance IROpcode_eq_dec : EqDecision IROpcode.
Proof. solve_decision. Defined.

(** The payload of an instruction: a string, a type, a field or a
    method reference, or nothing. *)
Inductive Operand : Type :=
  | NoOperand
  | StringOperand (s : DexString)
  | TypeOperand (t : DexType)
  | FieldOperand (f : DexFieldRef)
  | MethodOperand (m : DexMethodRef).

Record IRInstruction : Type := mkInsn {
  opcode : IROpcode;
  (** [Some d] when [dests_size() > 0], and then [dest() = d] *)
  dests : option register_t;
  dest_is_wide : bool;
  srcs : list register_t;
  (** whether the result is left in [RESULT_REGISTER] *)
  has_move_result : bool;
  operand : Operand
}.

Definition dest (insn : IRInstruction) : result register_t :=
  match dests insn with
  | Some d => Ok d
  | None => Abort AssertionFailure
  end.

Definition src (insn : IRInstruction) (i : nat) : result register_t :=
  match srcs insn !! i with
  | Some r => Ok r
  | None => Abort AssertionFailure
  end.

Definition has_field (insn : IRInstruction) : bool :=
  match operand insn with
  | FieldOperand _ => true
  | _ => false
  end.

Definition insn_get_string (insn : IRInstruction) : result DexString :=
  match operand insn with
  | StringOperand s => Ok s
  | _ => Abort AssertionFailure
  end.

Definition get_type (insn : IRInstruction) : result DexType :=
  match operand insn with
  | TypeOperand t => Ok t
  | _ => Abort AssertionFailure
  end.

Definition get_field (insn : IRInstruction) : result DexFieldRef :=
  match operand insn with
  | FieldOperand f => Ok f
  | _ => Abort AssertionFailure
  end.

Definition get_method (insn : IRInstruction) : result DexMethodRef :=
  match operand insn with
  | MethodOperand m => Ok m
  | _ => Abort AssertionFailure
  end.

(** [register_t] is a 32-bit unsigned integer and [RESULT_REGISTER]
    its largest value ([BaseIRAnalyzer.h]). *)
Definition register_modulus : N := 4294967296.
Definition RESULT_REGISTER : register_t := 4294967295.
Definition to_register (n : N) : register_t := n mod register_modulus.

(** An instruction is identified by its address: two entries of a
    method never share one.  A block lists its instruction entries in
    order; the graph is what [build_cfg] leaves in the code object. *)
Definition InsnPtr : Type := N.

Record Block : Type := mkBlock {
  block_id : N;
  block_insns : list (N * IRInstruction)
}.

Record ControlFlowGraph : Type := mkCfg {
  entry_block : Block;
  blocks : list Block
}.

Record IRCode : Type := mkCode {
  get_registers_size : N;
  code_insns : list (N * IRInstruction);
  cfg : ControlFlowGraph
}.

Record DexMethod : Type := mkMethod {
  method_ref : DexMethodRef;
  is_static : bool;
  (** null for a method without a body *)
  get_code : option IRCode
}.

Definition get_class (m : DexMethod) : DexType :=
  method_class (method_ref m).

Definition signature (m : DexMethod) : list DexType :=
  get_args (get_proto (method_ref m)).

End IR.

Export IR.

(** ** The analyzer (class [impl::Analyzer]) *)

Module Analyzer.

(** The reflection API handles the analyzer interns at construction. *)
Definition m_get_class : DexMethodRef :=
  make_method "Ljava/lang/Object;" "getClass" [] "Ljava/lang/Class;".
Definition m_get_method : DexMethodRef :=
  make_method "Ljava/lang/Class;" "getMethod"
    ["Ljava/lang/String;"; "[Ljava/lang/Class;"]
    "Ljava/lang/reflect/Method;".
Definition m_get_declared_method : DexMethodRef :=
  make_method "Ljava/lang/Class;" "getDeclaredMethod"
    ["Ljava/lang/String;"; "[Ljava/lang/Class;"]
    "Ljava/lang/reflect/Method;".
Definition m_get_constructor : DexMethodRef :=
  make_method "Ljava/lang/Class;" "getConstructor"
    ["[Ljava/lang/Class;"] "Ljava/lang/reflect/Constructor;".
Definition m_get_declared_constructor : DexMethodRef :=
  make_method "Ljava/lang/Class;" "getDeclaredConstructor"
    ["[Ljava/lang/Class;"] "Ljava/lang/reflect/Constructor;".
Definition m_get_constructors : DexMethodRef :=
  make_method "Ljava/lang/Class;" "getConstructors"
    [] "[Ljava/lang/reflect/Constructor;".
Definition m_get_declared_constructors : DexMethodRef :=
  make_method "Ljava/lang/Class;" "getDeclaredConstructors"
    [] "[Ljava/lang/reflect/Constructor;".
Definition m_ctor_lookup_vmethods : list DexMethodRef :=
  [ m_get_constructor; m_get_declared_constructor;
    m_get_constructors; m_get_declared_constructors ].
Definition m_get_field : DexMethodRef :=
  make_method "Ljava/lang/Class;" "getField"
    ["Ljava/lang/String;"] "Ljava/lang/reflect/Field;".
Definition m_get_declared_field : DexMethodRef :=
  make_method "Ljava/lang/Class;" "getDeclaredField"
    ["Ljava/lang/String;"] "Ljava/lang/reflect/Field;".
Definition m_get_method_name : DexMethodRef :=
  make_method "Ljava/lang/reflect/Method;" "getName"
    [] "Ljava/lang/String;".
Definition m_get_field_name : DexMethodRef :=
  make_method "Ljava/lang/reflect/Field;" "getName"
    [] "Ljava/lang/String;".
Definition m_for_name : DexMethodRef :=
  make_method "Ljava/lang/Class;" "forName"
    ["Ljava/lang/String;"] "Ljava/lang/Class;".

(** [update_non_string_input] *)
Definition update_non_string_input (current_state : AbstractObjectEnvironment)
    (insn : IRInstruction) (type : DexType)
    : result AbstractObjectEnvironment :=
  dest_reg ← (if has_move_result insn then Ok RESULT_REGISTER
              else dest insn);
  if bool_decide (type = get_class_type)
  then Ok (env_set dest_reg
             (Constant (class_object None NON_REFLECTION)) current_state)
  else Ok (env_set dest_reg
             (Constant (plain_object (Some type))) current_state).

(** [update_return_object] *)
Definition update_return_object (current_state : AbstractObjectEnvironment)
    (insn : IRInstruction) : result AbstractObjectEnvironment :=
  callee ← get_method insn;
  let return_type := get_rtype (get_proto callee) in
  if is_void return_type || negb (is_object return_type)
  then Ok current_state
  else update_non_string_input current_state insn return_type.

(** [default_semantics] *)
Definition default_semantics (insn : IRInstruction)
    (current_state : AbstractObjectEnvironment)
    : AbstractObjectEnvironment :=
  let clobbered :=
    match dests insn with
    | Some d =>
        let s1 := env_set d Top current_state in
        if dest_is_wide insn
        then env_set (to_register (d + 1)) Top s1
        else s1
    | None => current_state
    end in
  if has_move_result insn
  then env_set RESULT_REGISTER Top clobbered
  else clobbered.

(** [get_dex_string_from_insn] *)
Definition get_dex_string_from_insn
    (current_state : AbstractObjectEnvironment)
    (insn : IRInstruction) (reg : nat) : result (option DexString) :=
  r ← src insn reg;
  match get_constant (env_get r current_state) with
  | Some element_name =>
      if bool_decide (kind element_name = STRING)
      then Ok (dex_string element_name)
      else Ok None
  | None => Ok None
  end.

(** The [CLASS] case of [process_virtual_call] first selects the kind
    and the name of the looked-up element; the name stays null when no
    lookup handle matches. *)
Definition class_element (pool : gset string)
    (current_state : AbstractObjectEnvironment) (insn : IRInstruction)
    (callee : DexMethodRef)
    : result (AbstractObjectKind * option DexString) :=
  if bool_decide (callee = m_get_method)
     || bool_decide (callee = m_get_declared_method)
  then
    element_name ← get_dex_string_from_insn current_state insn 1;
    Ok (METHOD, element_name)
  else if bool_decide (callee ∈ m_ctor_lookup_vmethods)
  then Ok (METHOD, get_string pool "<init>")
  else if bool_decide (callee = m_get_field)
          || bool_decide (callee = m_get_declared_field)
  then
    element_name ← get_dex_string_from_insn current_state insn 1;
    Ok (FIELD, element_name)
  else Ok (OBJECT, None).

(** [process_virtual_call] *)
Definition process_virtual_call (pool : gset string)
    (insn : IRInstruction) (receiver : AbstractObject)
    (current_state : AbstractObjectEnvironment)
    : result AbstractObjectEnvironment :=
  callee ← get_method insn;
  match kind receiver with
  | OBJECT =>
      if bool_decide (callee = m_get_class)
      then Ok (env_set RESULT_REGISTER
                 (Constant (class_object (dex_type receiver) REFLECTION))
                 current_state)
      else update_return_object current_state insn
  | STRING =>
      if bool_decide (callee = m_get_class)
      then Ok (env_set RESULT_REGISTER
                 (Constant (class_object (Some get_string_type) REFLECTION))
                 current_state)
      else update_return_object current_state insn
  | CLASS =>
      '(element_kind, element_name) ←
        class_element pool current_state insn callee;
      match element_name with
      | None => update_return_object current_state insn
      | Some name =>
          Ok (env_set RESULT_REGISTER
                (Constant (member_object element_kind
                             (Some (method_class callee)) (Some name)))
                current_state)
      end
  | FIELD | METHOD =>
      if (bool_decide (kind receiver = FIELD)
          && bool_decide (callee = m_get_field_name))
         || (bool_decide (kind receiver = METHOD)
             && bool_decide (callee = m_get_method_name))
      then Ok (env_set RESULT_REGISTER
                 (Constant (string_object (dex_string receiver)))
                 current_state)
      else update_return_object current_state insn
  end.

(** [analyze_instruction] *)
Definition analyze_instruction (pool : gset string)
    (insn : IRInstruction) (current_state : AbstractObjectEnvironment)
    : result AbstractObjectEnvironment :=
  match opcode insn with
  | IOPCODE_LOAD_PARAM
  | IOPCODE_LOAD_PARAM_OBJECT
  | IOPCODE_LOAD_PARAM_WIDE =>
      Ok current_state
  | OPCODE_MOVE_OBJECT =>
      d ← dest insn;
      s ← src insn 0;
      Ok (env_set d (env_get s current_state) current_state)
  | IOPCODE_MOVE_RESULT_PSEUDO_OBJECT
  | OPCODE_MOVE_RESULT_OBJECT =>
      d ← dest insn;
      Ok (env_set d (env_get RESULT_REGISTER current_state) current_state)
  | OPCODE_CONST_STRING =>
      str ← insn_get_string insn;
      Ok (env_set RESULT_REGISTER
            (Constant (string_object (Some str))) current_state)
  | OPCODE_CONST_CLASS =>
      t ← get_type insn;
      Ok (env_set RESULT_REGISTER
            (Constant (class_object (Some t) REFLECTION)) current_state)
  | OPCODE_CHECK_CAST =>
      s ← src insn 0;
      Ok (env_set RESULT_REGISTER (env_get s current_state) current_state)
  | OPCODE_AGET_OBJECT =>
      s ← src insn 0;
      match get_constant (env_get s current_state) with
      | Some array_object =>
          match dex_type array_object with
          | Some type =>
              if is_array type
              then update_non_string_input current_state insn
                     (get_array_component_type type)
              else Ok (default_semantics insn current_state)
          | None => Ok (default_semantics insn current_state)
          end
      | None => Ok (default_semantics insn current_state)
      end
  | OPCODE_IGET_OBJECT
  | OPCODE_SGET_OBJECT =>
      field ← get_field insn;
      update_non_string_input current_state insn (field_type field)
  | OPCODE_NEW_INSTANCE
  | OPCODE_NEW_ARRAY
  | OPCODE_FILLED_NEW_ARRAY =>
      t ← get_type insn;
      Ok (env_set RESULT_REGISTER
            (Constant (plain_object (Some t))) current_state)
  | OPCODE_INVOKE_VIRTUAL =>
      s ← src insn 0;
      match get_constant (env_get s current_state) with
      | None => update_return_object current_state insn
      | Some receiver =>
          process_virtual_call pool insn receiver current_state
      end
  | OPCODE_INVOKE_STATIC =>
      callee ← get_method insn;
      if bool_decide (callee = m_for_name)
      then
        s ← src insn 0;
        match get_constant (env_get s current_state) with
        | Some class_name =>
            match bool_decide (kind class_name = STRING),
                  dex_string class_name with
            | true, Some ext =>
                let internal_name :=
                  make_string (external_to_internal ext) in
                Ok (env_set RESULT_REGISTER
                      (Constant (class_object
                                   (Some (make_type internal_name))
                                   REFLECTION))
                      current_state)
            | true, None => Abort NullDereference
            | false, _ => update_return_object current_state insn
            end
        | None => update_return_object current_state insn
        end
      else update_return_object current_state insn
  | OPCODE_INVOKE_INTERFACE
  | OPCODE_INVOKE_SUPER
  | OPCODE_INVOKE_DIRECT =>
      update_return_object current_state insn
  | OPCODE_OTHER _ =>
      Ok (default_semantics insn current_state)
  end.

(** The seeding loop of [run]: the parameter pseudo-instructions at
    the head of the entry block, interpreted once.  [sig_it] is the
    iterator over the argument types, here the list of types not yet
    consumed.  A regular object parameter first reads [*sig_it] and
    only then asserts that the iterator was not at the end: with the
    signature exhausted the read itself is the fault, and the
    assertion after it is never reached in a defined state. *)
Fixpoint seed_parameters (dex_method : DexMethod)
    (entry_block : list IRInstruction) (first_param : bool)
    (sig_it : list DexType) (init_state : AbstractObjectEnvironment)
    : result AbstractObjectEnvironment :=
  match entry_block with
  | [] => Ok init_state
  | insn :: rest =>
      match opcode insn with
      | IOPCODE_LOAD_PARAM_OBJECT =>
          if first_param && negb (is_static dex_method)
          then
            s ← update_non_string_input init_state insn
                  (get_class dex_method);
            seed_parameters dex_method rest false sig_it s
          else
            match sig_it with
            | [] => Abort EndIteratorDereference
            | type :: sig_next =>
                s ← update_non_string_input init_state insn type;
                seed_parameters dex_method rest first_param sig_next s
            end
      | IOPCODE_LOAD_PARAM
      | IOPCODE_LOAD_PARAM_WIDE =>
          seed_parameters dex_method rest first_param sig_it
            (default_semantics insn init_state)
      | _ => Ok init_state
      end
  end.

Definition initial_state (dex_method : DexMethod)
    (entry_block : list IRInstruction)
    : result AbstractObjectEnvironment :=
  seed_parameters dex_method entry_block true (signature dex_method)
    env_top.

(** The state of an analyzer after [run]: the replay cache. *)
Record t : Type := mkAnalyzer {
  m_environments : gmap N AbstractObjectEnvironment
}.

(** [unordered_map::emplace] keeps an existing entry. *)
Definition emplace (insn : N) (s : AbstractObjectEnvironment)
    (envs : gmap N AbstractObjectEnvironment)
    : gmap N AbstractObjectEnvironment :=
  match envs !! insn with
  | Some _ => envs
  | None => <[insn := s]> envs
  end.

(** The inner loop of [populate_environments]: snapshot, then
    transfer. *)
Fixpoint replay_block (pool : gset string)
    (insns : list (N * IRInstruction))
    (current_state : AbstractObjectEnvironment)
    (envs : gmap N AbstractObjectEnvironment)
    : result (gmap N AbstractObjectEnvironment) :=
  match insns with
  | [] => Ok envs
  | (ptr, insn) :: rest =>
      let envs' := emplace ptr current_state envs in
      s ← analyze_instruction pool insn current_state;
      replay_block pool rest s envs'
  end.

(** [populate_environments] *)
Fixpoint populate_blocks (pool : gset string)
    (get_entry_state_at : N → AbstractObjectEnvironment)
    (bs : list Block) (envs : gmap N AbstractObjectEnvironment)
    : result (gmap N AbstractObjectEnvironment) :=
  match bs with
  | [] => Ok envs
  | block :: rest =>
      envs' ← replay_block pool (block_insns block)
                (get_entry_state_at (block_id block)) envs;
      populate_blocks pool get_entry_state_at rest envs'
  end.

Definition populate_environments (pool : gset string)
    (get_entry_state_at : N → AbstractObjectEnvironment)
    (g : ControlFlowGraph)
    : result (gmap N AbstractObjectEnvironment) :=
  populate_blocks pool get_entry_state_at (blocks g) ∅.

(** Modelled from the spec: [MonotonicFixpointIterator] is an external
    collaborator (section 4.4).  It is a parameter of [run]: given the
    graph and the seeded entry state it yields the entry state of
    every block, or the fault of a transfer it ran. *)
Definition FixpointEngine : Type :=
  ControlFlowGraph → AbstractObjectEnvironment →
  result (N → AbstractObjectEnvironment).

(** [run] *)
Definition run (pool : gset string) (engine : FixpointEngine)
    (dex_method : DexMethod) (g : ControlFlowGraph) : result t :=
  init_state ← initial_state dex_method
                 (snd <$> block_insns (entry_block g));
  get_entry_state_at ← engine g init_state;
  envs ← populate_environments pool get_entry_state_at g;
  Ok (mkAnalyzer envs).

(** [get_abstract_object]; the [size_t] register narrows to
    [register_t]. *)
Definition get_abstract_object (a : t) (reg : N) (insn : N)
    : option AbstractObject :=
  match m_environments a !! insn with
  | None => None
  | Some s => get_constant (env_get (to_register reg) s)
  end.

(** [get_abstract_object_env] *)
Definition get_abstract_object_env (a : t) (insn : N)
    : option AbstractObjectEnvironment :=
  m_environments a !! insn.

End Analyzer.

(** ** The facade (class [ReflectionAnalysis]) *)

Module ReflectionAnalysis.

Record t : Type := mkAnalysis {
  m_dex_method : DexMethod;
  (** the owning pointer is null until the constructor sets it *)
  m_analyzer : option Analyzer.t
}.

(** The constructor. *)
Definition new (pool : gset string) (engine : Analyzer.FixpointEngine)
    (dex_method : DexMethod) : result t :=
  match get_code dex_method with
  | None => Ok (mkAnalysis dex_method None)
  | Some code =>
      a ← Analyzer.run pool engine dex_method (cfg code);
      Ok (mkAnalysis dex_method (Some a))
  end.

Definition ReflectionSites : Type :=
  list (N * gmap N AbstractObject).

(** [get_reflection_site]; [m_analyzer] is dereferenced unchecked. *)
Definition get_reflection_site (ra : t) (reg : register_t) (insn : N)
    (abstract_objects : gmap N AbstractObject)
    : result (gmap N AbstractObject) :=
  match m_analyzer ra with
  | None => Abort NullDereference
  | Some a =>
      match Analyzer.get_abstract_object a reg insn with
      | None => Ok abstract_objects
      | Some aobj =>
          if is_reflection_output aobj
          then Ok (<[reg := aobj]> abstract_objects)
          else Ok abstract_objects
      end
  end.

Fixpoint collect_registers (ra : t) (insn : N) (regs : list N)
    (abstract_objects : gmap N AbstractObject)
    : result (gmap N AbstractObject) :=
  match regs with
  | [] => Ok abstract_objects
  | i :: rest =>
      objs ← get_reflection_site ra (to_register i) insn abstract_objects;
      collect_registers ra insn rest objs
  end.

Fixpoint collect_sites (ra : t) (reg_size : N)
    (insns : list (N * IRInstruction)) (reflection_sites : ReflectionSites)
    : result ReflectionSites :=
  match insns with
  | [] => Ok reflection_sites
  | (insn, _) :: rest =>
      objs ← collect_registers ra insn
               (N.of_nat <$> seq 0 (N.to_nat reg_size)) ∅;
      objs' ← get_reflection_site ra RESULT_REGISTER insn objs;
      if bool_decide (objs' = ∅)
      then collect_sites ra reg_size rest reflection_sites
      else collect_sites ra reg_size rest
             (reflection_sites ++ [(insn, objs')])%list
  end.

(** [get_reflection_sites]; the code pointer is dereferenced
    unchecked. *)
Definition get_reflection_sites (ra : t) : result ReflectionSites :=
  match get_code (m_dex_method ra) with
  | None => Abort NullDereference
  | Some code =>
      collect_sites ra (get_registers_size code) (code_insns code) []
  end.

(** [has_found_reflection] *)
Definition has_found_reflection (ra : t) : result bool :=
  sites ← get_reflection_sites ra;
  Ok (negb (bool_decide (sites = []))).

(** [get_abstract_object] *)
Definition get_abstract_object (ra : t) (reg : N) (insn : N)
    : option AbstractObject :=
  match m_analyzer ra with
  | None => None
  | Some a => Analyzer.get_abstract_object a reg insn
  end.

End ReflectionAnalysis.

(** ** Scenario inputs

    Instructions and environments of the end-to-end scenarios of the
    specification, used to run the embedding on concrete inputs. *)

Module Scenario.

Import Analyzer.

Definition pool : gset string := {[ "<init>" ]}.

Definition const_string (lit : string) : IRInstruction :=
  mkInsn OPCODE_CONST_STRING None false [] true (StringOperand lit).

Definition const_class (t : DexType) : IRInstruction :=
  mkInsn OPCODE_CONST_CLASS None false [] true (TypeOperand t).

Definition move_result_pseudo_object (d : register_t) : IRInstruction :=
  mkInsn IOPCODE_MOVE_RESULT_PSEUDO_OBJECT (Some d) false [] false
    NoOperand.

Definition move_result_object (d : register_t) : IRInstruction :=
  mkInsn OPCODE_MOVE_RESULT_OBJECT (Some d) false [] false NoOperand.

Definition invoke (op : IROpcode) (callee : DexMethodRef)
    (args : list register_t) : IRInstruction :=
  mkInsn op None false args true (MethodOperand callee).

Definition load_param (op : IROpcode) (d : register_t) (wide : bool)
    : IRInstruction :=
  mkInsn op (Some d) wide [] false NoOperand.

(** [int Integer.parseInt(String)] *)
Definition parse_int : DexMethodRef :=
  make_method "Ljava/lang/Integer;" "parseInt" ["Ljava/lang/String;"] "I".

(** Straight-line execution of the transfer function. *)
Fixpoint transfer_all (pool : gset string) (insns : list IRInstruction)
    (s : AbstractObjectEnvironment) : result AbstractObjectEnvironment :=
  match insns with
  | [] => Ok s
  | insn :: rest =>
      s' ← analyze_instruction pool insn s;
      transfer_all pool rest s'
  end.

(** Scenario 1: [v0 ← "com.foo.Bar"; v1 ← Class.forName(v0);
    v2 ← "doIt"; v1.getDeclaredMethod(v2, v3)]. *)
Definition for_name_chain : list IRInstruction :=
  [ const_string "com.foo.Bar"; move_result_pseudo_object 0;
    invoke OPCODE_INVOKE_STATIC m_for_name [0]; move_result_object 1;
    const_string "doIt"; move_result_pseudo_object 2;
    invoke OPCODE_INVOKE_VIRTUAL m_get_declared_method [1; 2; 3] ].

(** Scenario 4: [v0 ← Baz.class; v0.getDeclaredConstructors()]. *)
Definition constructor_lookup : list IRInstruction :=
  [ const_class "LBaz;"; move_result_pseudo_object 0;
    invoke OPCODE_INVOKE_VIRTUAL m_get_declared_constructors [0] ].

(** [void Foo.bar(Class, String, long)], not static, and the head of
    its entry block. *)
Definition seeded_method : DexMethod :=
  mkMethod
    (make_method "LFoo;" "bar"
       ["Ljava/lang/Class;"; "Ljava/lang/String;"; "J"] "V")
    false None.

Definition seeded_entry : list IRInstruction :=
  [ load_param IOPCODE_LOAD_PARAM_OBJECT 0 false;
    load_param IOPCODE_LOAD_PARAM_OBJECT 1 false;
    load_param IOPCODE_LOAD_PARAM_OBJECT 2 false;
    load_param IOPCODE_LOAD_PARAM_WIDE 3 true;
    const_string "x";
    move_result_pseudo_object 5 ].

(** [static void Foo.baz(int, Class, Foo[])] and the head of its entry
    block: a primitive parameter before two object parameters. *)
Definition mixed_method : DexMethod :=
  mkMethod
    (make_method "LFoo;" "baz" ["I"; "Ljava/lang/Class;"; "[LFoo;"] "V")
    true None.

Definition mixed_entry : list IRInstruction :=
  [ load_param IOPCODE_LOAD_PARAM 0 false;
    load_param IOPCODE_LOAD_PARAM_OBJECT 1 false;
    load_param IOPCODE_LOAD_PARAM_OBJECT 2 false;
    const_string "x" ].

(** [String String.valueOf(Object)] *)
Definition value_of : DexMethodRef :=
  make_method "Ljava/lang/String;" "valueOf" ["Ljava/lang/Object;"]
    "Ljava/lang/String;".

(** A method without a body, such as an abstract one. *)
Definition abstract_method : DexMethod :=
  mkMethod (make_method "LFoo;" "bar" [] "V") false None.

End Scenario.

(** ** Notions of the specification *)

Module Spec.

Import Analyzer.

Definition is_load_param (op : IROpcode) : bool :=
  match op with
  | IOPCODE_LOAD_PARAM
  | IOPCODE_LOAD_PARAM_OBJECT
  | IOPCODE_LOAD_PARAM_WIDE => true
  | _ => false
  end.

Definition is_invoke (op : IROpcode) : bool :=
  match op with
  | OPCODE_INVOKE_VIRTUAL
  | OPCODE_INVOKE_STATIC
  | OPCODE_INVOKE_INTERFACE
  | OPCODE_INVOKE_SUPER
  | OPCODE_INVOKE_DIRECT => true
  | _ => false
  end.

(** Invariants of the instruction representation: an instruction
    leaves its result either in a destination register or in
    [RESULT_REGISTER], never in both; a parameter load has a
    destination; operands are registers of the method, not the
    sentinel. *)
Record well_formed (insn : IRInstruction) : Prop := {
  wf_result_or_dest : has_move_result insn = true → dests insn = None;
  wf_param_dest : is_load_param (opcode insn) = true → dests insn ≠ None;
  wf_dest : ∀ d, dests insn = Some d → d < RESULT_REGISTER;
  wf_srcs : ∀ s, s ∈ srcs insn → s < RESULT_REGISTER
}.

(** An object built by one of the constructors of the struct. *)
Definition constructed (a : AbstractObject) : Prop :=
  match kind a with
  | STRING => dex_type a = None ∧ cls_source a = NOT_APPLICABLE
  | OBJECT => dex_string a = None ∧ cls_source a = NOT_APPLICABLE
  | CLASS => dex_string a = None
  | FIELD | METHOD => cls_source a = NOT_APPLICABLE
  end.

Definition env_constructed (E : AbstractObjectEnvironment) : Prop :=
  ∀ r a, env_get r E = Constant a → constructed a.

(** The virtual handles [process_virtual_call] has a rule for. *)
Definition reflection_vmethods : list DexMethodRef :=
  [ m_get_class; m_get_method; m_get_declared_method ]
  ++ m_ctor_lookup_vmethods
  ++ [ m_get_field; m_get_declared_field;
       m_get_method_name; m_get_field_name ].

(** An instruction the analyzer models as a reflection API call. *)
Definition models_reflection (insn : IRInstruction) : bool :=
  match opcode insn, operand insn with
  | OPCODE_INVOKE_VIRTUAL, MethodOperand callee =>
      bool_decide (callee ∈ reflection_vmethods)
  | OPCODE_INVOKE_STATIC, MethodOperand callee =>
      bool_decide (callee = m_for_name)
  | _, _ => false
  end.

(** An invoke whose callee declares a reference return type. *)
Definition returns_object (insn : IRInstruction) : bool :=
  match operand insn with
  | MethodOperand callee =>
      let return_type := get_rtype (get_proto callee) in
      negb (is_void return_type) && is_object return_type
  | _ => false
  end.

(** [RESULT_REGISTER] after the transfer does not depend on what it
    held before: whatever two non-bottom values it is given, the
    transfer leaves the same value in it. *)
Definition result_never_stale (pool : gset string) (insn : IRInstruction)
    : Prop :=
  ∀ (m : gmap N AbstractObject) (v w : AbstractObjectDomain)
    (F G : AbstractObjectEnvironment),
    v ≠ Bottom → w ≠ Bottom →
    analyze_instruction pool insn
      (env_set RESULT_REGISTER v (EnvValue m)) = Ok F →
    analyze_instruction pool insn
      (env_set RESULT_REGISTER w (EnvValue m)) = Ok G →
    env_get RESULT_REGISTER F = env_get RESULT_REGISTER G.

(** Two environments that differ at most in [RESULT_REGISTER]. *)
Definition agree_off_result (E1 E2 : AbstractObjectEnvironment) : Prop :=
  is_bottom E1 = false ∧ is_bottom E2 = false
  ∧ ∀ r, r < RESULT_REGISTER → env_get r E1 = env_get r E2.

(** The outcome shape shared by every rule that writes the result
    register: the same non-bottom value is written into both
    environments. *)
Definition same_result_written (E1 E2 : AbstractObjectEnvironment)
    (o1 o2 : result AbstractObjectEnvironment) : Prop :=
  ∀ F G, o1 = Ok F → o2 = Ok G →
    ∃ d, d ≠ Bottom
         ∧ F = env_set RESULT_REGISTER d E1
         ∧ G = env_set RESULT_REGISTER d E2.

(** Monotonicity of the transfer of one instruction, over
    environments of constructed objects. *)
Definition monotone (pool : gset string) (insn : IRInstruction) : Prop :=
  ∀ E E' F F' : AbstractObjectEnvironment,
    env_constructed E → env_constructed E' →
    env_leq E E' →
    analyze_instruction pool insn E = Ok F →
    analyze_instruction pool insn E' = Ok F' →
    env_leq F F'.

(** Parameter seeding as sections 4.3 and 7 word it.  The parameters
    are taken by position, one parameter pseudo-instruction per
    parameter.  The type of a parameter is read off the signature at
    its position: the first parameter of a non-static method is [this]
    and has the declaring class as type, and the argument types follow
    in order.  An object parameter binds its destination by its type,
    to an unknown non-reflective class when the type is the [Class]
    metatype and to an object of the type otherwise; an object
    parameter whose position exceeds the arity of the signature is a
    fatal assertion.  The other parameter loads set their destination
    (both halves when wide) to top.  The first other opcode ends the
    scan. *)
Definition bind_parameter (E : AbstractObjectEnvironment)
    (d : register_t) (T : DexType) : AbstractObjectEnvironment :=
  if bool_decide (T = "Ljava/lang/Class;")
  then env_set d (Constant (class_object None NON_REFLECTION)) E
  else env_set d (Constant (plain_object (Some T))) E.

Definition parameter_type (dex_method : DexMethod) (position : nat)
    : option DexType :=
  if is_static dex_method then signature dex_method !! position
  else
    match position with
    | O => Some (get_class dex_method)
    | S p => signature dex_method !! p
    end.

Fixpoint seed_by_position (dex_method : DexMethod) (position : nat)
    (insns : list IRInstruction) (E : AbstractObjectEnvironment)
    : result AbstractObjectEnvironment :=
  match insns with
  | [] => Ok E
  | insn :: rest =>
      match opcode insn, dests insn with
      | IOPCODE_LOAD_PARAM_OBJECT, Some d =>
          match parameter_type dex_method position with
          | Some T =>
              seed_by_position dex_method (S position) rest
                (bind_parameter E d T)
          | None => Abort AssertionFailure
          end
      | IOPCODE_LOAD_PARAM_OBJECT, None => Abort AssertionFailure
      | (IOPCODE_LOAD_PARAM | IOPCODE_LOAD_PARAM_WIDE), Some d =>
          seed_by_position dex_method (S position) rest
            (if dest_is_wide insn
             then env_set (d + 1) Top (env_set d Top E)
             else env_set d Top E)
      | (IOPCODE_LOAD_PARAM | IOPCODE_LOAD_PARAM_WIDE), None =>
          seed_by_position dex_method (S position) rest E
      | _, _ => Ok E
      end
  end.

(** The cursor of the loop of [run], its flag and its iterator, stands
    at the position of the parameter. *)
Definition cursor_at (dex_method : DexMethod) (first : bool)
    (sig_it : list DexType) (position : nat) : Prop :=
  if is_static dex_method then sig_it = drop position (signature dex_method)
  else
    match position with
    | O => first = true ∧ sig_it = signature dex_method
    | S p => first = false ∧ sig_it = drop p (signature dex_method)
    end.

(** The parameter run holds loads of primitive parameters only. *)
Fixpoint primitives_only (insns : list IRInstruction) : bool :=
  match insns with
  | [] => true
  | insn :: rest =>
      match opcode insn with
      | IOPCODE_LOAD_PARAM_OBJECT => false
      | IOPCODE_LOAD_PARAM | IOPCODE_LOAD_PARAM_WIDE =>
          primitives_only rest
      | _ => true
      end
  end.

(** No object load of the parameter run comes after a load of a
    primitive parameter. *)
Fixpoint objects_first (insns : list IRInstruction) : bool :=
  match insns with
  | [] => true
  | insn :: rest =>
      match opcode insn with
      | IOPCODE_LOAD_PARAM_OBJECT => objects_first rest
      | IOPCODE_LOAD_PARAM | IOPCODE_LOAD_PARAM_WIDE =>
          primitives_only rest
      | _ => true
      end
  end.

End Spec.

(** ** Invariants and footprints of the analysis *)

Module Invariant.

Import Analyzer.

(** What the always-asserts and dereferences of the source rely on: a
    string object has its string, a class object a determinate
    source, a field or method object its type and its name. *)
Definition sound_object (a : AbstractObject) : Prop :=
  match kind a with
  | OBJECT => True
  | STRING => dex_string a ≠ None
  | CLASS => cls_source a ≠ NOT_APPLICABLE
  | FIELD | METHOD => dex_type a ≠ None ∧ dex_string a ≠ None
  end.

(** Every constant of the environment satisfies [P]. *)
Definition env_all (P : AbstractObject → Prop)
    (E : AbstractObjectEnvironment) : Prop :=
  ∀ r a, env_get r E = Constant a → P a.

Definition analysis_object (a : AbstractObject) : Prop :=
  Spec.constructed a ∧ sound_object a.

Definition not_reflection_output (a : AbstractObject) : Prop :=
  is_reflection_output a = false.

(** The registers an instruction may write: the result register, its
    destination, and the upper half of a wide destination. *)
Definition may_write (insn : IRInstruction) (r : register_t) : bool :=
  bool_decide (r = RESULT_REGISTER)
  || match dests insn with
     | Some d =>
         bool_decide (r = d)
         || (dest_is_wide insn && bool_decide (r = to_register (d + 1)))
     | None => false
     end.

(** What a predicate on objects must admit for the rules of an
    instruction to keep it: the objects every instruction may build,
    the class of a [const-class], and the objects of the reflection
    rules when the instruction is modelled as a reflection call. *)
Record rule_closed (P : AbstractObject → Prop) (insn : IRInstruction)
    : Prop := {
  rc_string : ∀ s, P (string_object (Some s));
  rc_object : ∀ t, P (plain_object (Some t));
  rc_unknown_class : P (class_object None NON_REFLECTION);
  rc_const_class :
    opcode insn = OPCODE_CONST_CLASS →
    ∀ t, P (class_object (Some t) REFLECTION);
  rc_reflection :
    Spec.models_reflection insn = true →
    (∀ t, P (class_object t REFLECTION))
    ∧ (∀ k t n, k = FIELD ∨ k = METHOD →
                P (member_object k (Some t) (Some n)))
    ∧ (∀ a, P a → kind a = FIELD ∨ kind a = METHOD →
            P (string_object (dex_string a)))
}.

(** An environment reached from [E] by writes to registers in [W] of
    values that are top, a constant satisfying [P], or bottom when [E]
    is unreachable. *)
Definition admitted_value (P : AbstractObject → Prop)
    (E : AbstractObjectEnvironment) (d : AbstractObjectDomain) : Prop :=
  match d with
  | Bottom => is_bottom E = true
  | Constant a => P a
  | Top => True
  end.

Inductive written_from (P : AbstractObject → Prop) (W : register_t → bool)
    (E : AbstractObjectEnvironment) : AbstractObjectEnvironment → Prop :=
  | written_same : written_from P W E E
  | written_set r d F :
      written_from P W E F → W r = true → admitted_value P E d →
      written_from P W E (env_set r d F).

(** The leading run of parameter pseudo-instructions and the number
    of object loads in it. *)
Fixpoint param_run (insns : list IRInstruction) : list IRInstruction :=
  match insns with
  | [] => []
  | insn :: rest =>
      if Spec.is_load_param (opcode insn) then insn :: param_run rest
      else []
  end.

Fixpoint object_loads (insns : list IRInstruction) : nat :=
  match insns with
  | [] => 0
  | insn :: rest =>
      (if bool_decide (opcode insn = IOPCODE_LOAD_PARAM_OBJECT)
       then 1 else 0)%nat + object_loads rest
  end.

(** The instruction addresses of a list of entries, of the blocks of
    a graph, and the registers [get_reflection_sites] queries. *)
Definition pointers (insns : list (N * IRInstruction)) : list N :=
  fst <$> insns.

Definition blocks_pointers (bs : list Block) : list N :=
  bs ≫= (λ b, pointers (block_insns b)).

Definition queried_registers (reg_size : N) : list register_t :=
  ((λ i, to_register (N.of_nat i)) <$> seq 0 (N.to_nat reg_size))
  ++ [RESULT_REGISTER].

(** A single-block engine: the entry state of the only block is the
    seeded state. *)
Definition straight_line_engine : FixpointEngine :=
  λ _ init_state, Ok (λ _, init_state).

(** The map reported for an instruction holds exactly the reflection
    outputs that the queries for the registers of the method and for
    the result register answer. *)
Definition site_exact (ra : ReflectionAnalysis.t) (reg_size : N)
    (insn : N) (objs : gmap N AbstractObject) : Prop :=
  ∀ reg o,
    objs !! reg = Some o
    ↔ reg ∈ queried_registers reg_size
      ∧ ReflectionAnalysis.get_abstract_object ra reg insn = Some o
      ∧ is_reflection_output o = true.

(** The forName chain of scenario 1 as a method of one block. *)
Definition chain_block : Block :=
  mkBlock 0 (zip [10; 11; 12; 13; 14; 15; 16] Scenario.for_name_chain).

Definition chain_cfg : ControlFlowGraph := mkCfg chain_block [chain_block].

Definition chain_code : IRCode :=
  mkCode 4 (block_insns chain_block) chain_cfg.

Definition chain_method : DexMethod :=
  mkMethod (make_method "LFoo;" "run" [] "V") true (Some chain_code).

(** Answers collected so far agree with the queries. *)
Definition consistent (ra : ReflectionAnalysis.t) (insn : N)
    (objs : gmap N AbstractObject) : Prop :=
  ∀ k o, objs !! k = Some o →
         ReflectionAnalysis.get_abstract_object ra k insn = Some o
         ∧ is_reflection_output o = true.

(** The analysis of that method, with the single-block engine. *)
Definition chain_analysis : ReflectionAnalysis.t :=
  match ReflectionAnalysis.new Scenario.pool straight_line_engine
          chain_method with
  | Ok ra => ra
  | Abort _ => ReflectionAnalysis.mkAnalysis chain_method None
  end.

End Invariant.

(** ** Properties of the lattice and of the environment *)

Section EnvironmentFacts.

Implicit Types (E : AbstractObjectEnvironment) (d : AbstractObjectDomain).
Implicit Types (r : register_t) (a : AbstractObject).

Lemma abstract_object_eq_refl a : abstract_object_eq a a = true.
Proof.
  unfold abstract_object_eq.
  rewrite bool_decide_true by done. simpl.
  destruct (kind a); rewrite !bool_decide_true by done; done.
Qed.

Lemma domain_leq_refl d : domain_leq d d = true.
Proof. destruct d; simpl; auto using abstract_object_eq_refl. Qed.

Lemma domain_leq_top d : domain_leq d Top = true.
Proof. by destruct d. Qed.

Lemma domain_leq_bottom_inv d : domain_leq d Bottom = true → d = Bottom.
Proof. by destruct d. Qed.

Lemma env_get_bottom r : env_get r EnvBottom = Bottom.
Proof. done. Qed.

Lemma env_get_value_ne_bottom r m : env_get r (EnvValue m) ≠ Bottom.
Proof. simpl. by destruct (m !! r). Qed.

Lemma env_get_constant_not_bottom r E a :
  env_get r E = Constant a → is_bottom E = false.
Proof. by destruct E. Qed.

(** Reading a register after a write. *)
Lemma env_get_set r r' d E :
  env_get r (env_set r' d E) =
    if is_bottom E then Bottom
    else match d with
         | Bottom => Bottom
         | _ => if bool_decide (r = r') then d else env_get r E
         end.
Proof.
  destruct E as [|m]; [done|]. simpl.
  destruct d as [|v|]; simpl; [done| |].
  - case_bool_decide as Hr.
    + subst. by rewrite lookup_insert_eq.
    + by rewrite lookup_insert_ne.
  - case_bool_decide as Hr.
    + subst. by rewrite lookup_delete_eq.
    + by rewrite lookup_delete_ne.
Qed.

Lemma env_get_set_eq r d m :
  d ≠ Bottom → env_get r (env_set r d (EnvValue m)) = d.
Proof.
  intros Hd. rewrite env_get_set. simpl.
  destruct d; [done| |]; by rewrite bool_decide_true.
Qed.

Lemma env_get_set_ne r r' d m :
  d ≠ Bottom → r ≠ r' →
  env_get r (env_set r' d (EnvValue m)) = env_get r (EnvValue m).
Proof.
  intros Hd Hr. rewrite env_get_set. simpl.
  destruct d; [done| |]; by rewrite bool_decide_false.
Qed.

Lemma is_bottom_set r d E :
  is_bottom (env_set r d E) =
    is_bottom E || bool_decide (d = Bottom).
Proof. destruct E; [done|]. by destruct d. Qed.

Lemma env_leq_refl E : env_leq E E.
Proof. intros r. apply domain_leq_refl. Qed.

Lemma env_leq_bottom E : env_leq EnvBottom E.
Proof. by intros r. Qed.

Lemma env_leq_bottom_inv E : env_leq E EnvBottom → E = EnvBottom.
Proof.
  destruct E as [|m]; [done|]. intros H.
  specialize (H (fresh (dom m))).
  apply domain_leq_bottom_inv in H.
  by apply env_get_value_ne_bottom in H.
Qed.

(** A write is monotone in the value and in the environment. *)
Lemma env_set_mono r d d' E E' :
  env_leq E E' → domain_leq d d' = true →
  env_leq (env_set r d E) (env_set r d' E').
Proof.
  intros HE Hd r0. rewrite !env_get_set.
  destruct E as [|m]; [done|].
  destruct E' as [|m']; [by apply env_leq_bottom_inv in HE|].
  simpl. destruct d as [|v|]; [done| |].
  - destruct d' as [|v'|]; [done| |].
    + case_bool_decide; [done|]. apply HE.
    + case_bool_decide; [done|]. apply HE.
  - destruct d' as [|v'|]; [done|done|].
    case_bool_decide; [done|]. apply HE.
Qed.

End EnvironmentFacts.

(** ** Equality of abstract objects *)

Section Equality.

Implicit Types x y : AbstractObject.

Lemma abstract_object_eq_kind x y :
  abstract_object_eq x y = true → kind x = kind y.
Proof.
  unfold abstract_object_eq. case_bool_decide; [done|]. by simpl.
Qed.

Lemma abstract_object_eq_spec x y :
  abstract_object_eq x y = true ↔
    kind x = kind y
    ∧ match kind x with
      | OBJECT | CLASS =>
          dex_type x = dex_type y ∧ cls_source x = cls_source y
      | STRING => dex_string x = dex_string y
      | FIELD | METHOD =>
          dex_type x = dex_type y ∧ dex_string x = dex_string y
      end.
Proof.
  unfold abstract_object_eq.
  case_bool_decide as Hk; simpl; [|naive_solver].
  destruct (kind x);
    rewrite ?andb_true_iff, !bool_decide_eq_true; naive_solver.
Qed.

(** C8 (as the claim states it, refuted): two [OBJECT] values with the
    same type differ under [operator==] when their stored source
    differs. *)
Lemma C8_object_equality_reads_source :
  let x := mkAbstractObject OBJECT (Some "LFoo;") None NOT_APPLICABLE in
  let y := mkAbstractObject OBJECT (Some "LFoo;") None REFLECTION in
  kind x = OBJECT ∧ kind y = OBJECT ∧ dex_type x = dex_type y
  ∧ abstract_object_eq x y = false.
Proof. by vm_compute. Qed.

(** C8 (amended): equality is decided by the tag and then by the
    attributes the [switch] reads: [OBJECT] and [CLASS] compare
    type and stored source (the stored string is ignored); [STRING]
    compares the string only; [FIELD] and [METHOD] compare type and
    name (the stored source is ignored); values of different tags are
    never equal. *)
Theorem C8_equality_by_variant x y :
  (kind x ≠ kind y → abstract_object_eq x y = false)
  ∧ (kind x = OBJECT → kind y = OBJECT →
     (abstract_object_eq x y = true ↔
      dex_type x = dex_type y ∧ cls_source x = cls_source y))
  ∧ (kind x = STRING → kind y = STRING →
     (abstract_object_eq x y = true ↔ dex_string x = dex_string y))
  ∧ (kind x = CLASS → kind y = CLASS →
     (abstract_object_eq x y = true ↔
      dex_type x = dex_type y ∧ cls_source x = cls_source y))
  ∧ (kind x = kind y → kind x = FIELD ∨ kind x = METHOD →
     (abstract_object_eq x y = true ↔
      dex_type x = dex_type y ∧ dex_string x = dex_string y)).
Proof.
  pose proof (abstract_object_eq_spec x y) as Hspec.
  assert (abstract_object_eq x y = false
          ↔ ¬ abstract_object_eq x y = true) as Hfalse
    by (destruct (abstract_object_eq x y); naive_solver).
  rewrite Hfalse, Hspec.
  destruct (kind x), (kind y); naive_solver.
Qed.

End Equality.

(** ** The transfer function on single instructions *)

Section Transfer.

Import Analyzer Spec.

Implicit Types (pool : gset string) (insn : IRInstruction).
Implicit Types (E F : AbstractObjectEnvironment).

(** C9: inside the fixpoint loop a parameter pseudo-instruction
    leaves the environment as it is, [RESULT_REGISTER] included. *)
Theorem C9_load_param_is_noop pool insn E :
  is_load_param (opcode insn) = true →
  analyze_instruction pool insn E = Ok E.
Proof.
  intros Hop. unfold analyze_instruction.
  destruct (opcode insn); try discriminate Hop; done.
Qed.

Lemma C9_load_param_is_noop_witness :
  let insn := Scenario.load_param IOPCODE_LOAD_PARAM_OBJECT 0 false in
  let E := env_set 0 (Constant (plain_object (Some "LFoo;"))) env_top in
  is_load_param (opcode insn) = true
  ∧ analyze_instruction Scenario.pool insn E = Ok E.
Proof.
  split; [reflexivity|].
  apply (C9_load_param_is_noop Scenario.pool
           (Scenario.load_param IOPCODE_LOAD_PARAM_OBJECT 0 false)).
  reflexivity.
Defined.

(** External names convert by wrapping and by replacing the dots. *)
Lemma replace_char_app from to s1 s2 :
  replace_char from to (s1 +:+ s2)
  = replace_char from to s1 +:+ replace_char from to s2.
Proof. induction s1 as [|c s1 IH]; simpl; [done|]. by rewrite IH. Qed.

Lemma external_to_internal_wrap ext :
  external_to_internal ext
  = "L" +:+ replace_char "."%char "/"%char ext +:+ ";".
Proof.
  unfold external_to_internal. by rewrite !replace_char_app.
Qed.

(** C6: [invoke-static] of the interned [Class.forName(String)] on a
    register holding a string constant binds [RESULT_REGISTER] to the
    reflective class of the converted name.  Every other
    [invoke-static], one of another callee or one whose first source
    register holds no string constant, is the generic return-object
    binding: it leaves the environment as it is when the callee
    returns [void] or a primitive, and otherwise binds
    [RESULT_REGISTER] to an unknown non-reflective class when the
    return type is the [Class] metatype and to an object of the return
    type for any other. *)
Theorem C6_invoke_static_for_name pool insn E callee :
  opcode insn = OPCODE_INVOKE_STATIC →
  get_method insn = Ok callee →
  let return_type := get_rtype (get_proto callee) in
  let other_invoke_static :=
    callee ≠ m_for_name
    ∨ ∃ r, src insn 0 = Ok r
           ∧ ∀ ext_name, env_get r E = Constant ext_name →
                         kind ext_name ≠ STRING in
  (∀ r ext_name ext,
     callee = m_for_name → src insn 0 = Ok r →
     env_get r E = Constant ext_name → kind ext_name = STRING →
     dex_string ext_name = Some ext →
     analyze_instruction pool insn E
     = Ok (env_set RESULT_REGISTER
             (Constant
                (class_object
                   (Some ("L" +:+ replace_char "."%char "/"%char ext
                          +:+ ";"))
                   REFLECTION)) E))
  ∧ (other_invoke_static →
     is_void return_type = true ∨ is_object return_type = false →
     analyze_instruction pool insn E = Ok E)
  ∧ (other_invoke_static →
     is_void return_type = false → is_object return_type = true →
     has_move_result insn = true →
     analyze_instruction pool insn E
     = Ok (env_set RESULT_REGISTER
             (Constant
                (if bool_decide (return_type = "Ljava/lang/Class;")
                 then class_object None NON_REFLECTION
                 else plain_object (Some return_type))) E)).
Proof.
  intros Hop Hm return_type other.
  assert (other →
          analyze_instruction pool insn E
          = if is_void return_type || negb (is_object return_type)
            then Ok E
            else update_non_string_input E insn return_type) as Hother.
  { unfold analyze_instruction, update_return_object.
    rewrite Hop, Hm. simpl. fold return_type.
    intros [Hne|(r & Hsrc & Hnot)].
    - by rewrite bool_decide_false.
    - case_bool_decide; [|done].
      rewrite Hsrc. simpl.
      destruct (env_get r E) as [|a|] eqn:Hget; simpl; [done| |done].
      rewrite bool_decide_false; [done|]. by apply Hnot. }
  split; [|split].
  - intros r ext_name ext -> Hsrc Hget Hkind Hstr.
    unfold analyze_instruction. rewrite Hop, Hm. simpl.
    rewrite ?(bool_decide_true (m_for_name = m_for_name)) by done.
    rewrite Hsrc. simpl.
    rewrite Hget. simpl. rewrite Hstr, bool_decide_true by done.
    by rewrite <- external_to_internal_wrap.
  - intros Ho Hprim. rewrite (Hother Ho).
    destruct Hprim as [-> | ->]; [done|by rewrite orb_true_r].
  - intros Ho Hvoid Hobj Hmr. rewrite (Hother Ho), Hvoid, Hobj. simpl.
    unfold update_non_string_input. rewrite Hmr. simpl.
    unfold get_class_type. by case_bool_decide.
Qed.

Lemma C6_invoke_static_for_name_witness :
  let for_name := Scenario.invoke OPCODE_INVOKE_STATIC m_for_name [0] in
  let E := env_set 0 (Constant (string_object (Some "com.foo.Bar")))
             env_top in
  analyze_instruction Scenario.pool for_name E
  = Ok (env_set RESULT_REGISTER
          (Constant (class_object (Some "Lcom/foo/Bar;") REFLECTION)) E)
  ∧ analyze_instruction Scenario.pool
      (Scenario.invoke OPCODE_INVOKE_STATIC Scenario.parse_int [0]) E
    = Ok E
  ∧ analyze_instruction Scenario.pool
      (Scenario.invoke OPCODE_INVOKE_STATIC Scenario.value_of [0]) E
    = Ok (env_set RESULT_REGISTER
            (Constant (plain_object (Some "Ljava/lang/String;"))) E)
  ∧ analyze_instruction Scenario.pool for_name env_top
    = Ok (env_set RESULT_REGISTER
            (Constant (class_object None NON_REFLECTION)) env_top).
Proof.
  intros for_name E. split; [|split; [|split]].
  - exact (proj1 (C6_invoke_static_for_name Scenario.pool for_name E
                    m_for_name eq_refl eq_refl)
             0 (string_object (Some "com.foo.Bar")) "com.foo.Bar"
             eq_refl eq_refl eq_refl eq_refl eq_refl).
  - apply (proj1 (proj2 (C6_invoke_static_for_name Scenario.pool
                           (Scenario.invoke OPCODE_INVOKE_STATIC
                              Scenario.parse_int [0])
                           E Scenario.parse_int eq_refl eq_refl))).
    + left. discriminate.
    + right. reflexivity.
  - apply (proj2 (proj2 (C6_invoke_static_for_name Scenario.pool
                           (Scenario.invoke OPCODE_INVOKE_STATIC
                              Scenario.value_of [0])
                           E Scenario.value_of eq_refl eq_refl)));
      try reflexivity.
    left. discriminate.
  - apply (proj2 (proj2 (C6_invoke_static_for_name Scenario.pool for_name
                           env_top m_for_name eq_refl eq_refl)));
      try reflexivity.
    right. exists 0. split; [reflexivity|]. intros ext_name Hget.
    discriminate Hget.
Defined.

End Transfer.

(** ** The replay cache and the facade *)

Section Queries.

Import Analyzer.

(** C10: a query for an instruction without a cached environment
    answers [None]; an answer [Some] comes from the cached environment
    of the instruction and is the constant of the register there. *)
Theorem C10_query_reads_cache (ra : ReflectionAnalysis.t) (reg insn : N) :
  ((∀ a, ReflectionAnalysis.m_analyzer ra = Some a →
         m_environments a !! insn = None) →
   ReflectionAnalysis.get_abstract_object ra reg insn = None)
  ∧ (∀ a s, ReflectionAnalysis.m_analyzer ra = Some a →
            m_environments a !! insn = Some s →
            ReflectionAnalysis.get_abstract_object ra reg insn
            = get_constant (env_get (to_register reg) s))
  ∧ (∀ obj, ReflectionAnalysis.get_abstract_object ra reg insn = Some obj →
            ∃ a s, ReflectionAnalysis.m_analyzer ra = Some a
                   ∧ m_environments a !! insn = Some s
                   ∧ get_constant (env_get (to_register reg) s) = Some obj)
  ∧ (reg < register_modulus → to_register reg = reg).
Proof.
  unfold ReflectionAnalysis.get_abstract_object, get_abstract_object.
  destruct (ReflectionAnalysis.m_analyzer ra) as [a|].
  - destruct (m_environments a !! insn) as [s|] eqn:Hs.
    + repeat split.
      * intros H. specialize (H a eq_refl). congruence.
      * intros a' s' [= <-]. congruence.
      * intros obj Hobj. eauto.
      * intros Hlt. unfold to_register. by apply N.mod_small.
    + repeat split; try done.
      * intros a' s' [= <-]. congruence.
      * intros Hlt. unfold to_register. by apply N.mod_small.
  - repeat split; try done.
    intros Hlt. unfold to_register. by apply N.mod_small.
Qed.

Lemma C10_query_reads_cache_witness :
  let s := env_set 3 (Constant (string_object (Some "doIt"))) env_top in
  let ra := ReflectionAnalysis.mkAnalysis Scenario.abstract_method
              (Some (mkAnalyzer {[ 7 := s ]})) in
  ReflectionAnalysis.get_abstract_object ra 3 8 = None
  ∧ ReflectionAnalysis.get_abstract_object ra 3 7
    = Some (string_object (Some "doIt")).
Proof.
  intros s ra. split.
  - apply (proj1 (C10_query_reads_cache ra 3 8)).
    intros a [= <-]. reflexivity.
  - apply (proj1 (proj2 (C10_query_reads_cache ra 3 7))
             (mkAnalyzer {[ 7 := s ]}) s); reflexivity.
Defined.

(** C2 (what the code does for a method without code): the
    constructor completes with no analyzer and [get_abstract_object]
    answers [None], but [get_reflection_sites] dereferences the null
    code pointer, and so does [has_found_reflection] through it. *)
Theorem C2_absent_code_queries (pool : gset string)
    (engine : FixpointEngine) (ref : DexMethodRef) (static : bool) :
  let dex_method := mkMethod ref static None in
  ∃ ra,
    ReflectionAnalysis.new pool engine dex_method = Ok ra
    ∧ ReflectionAnalysis.m_analyzer ra = None
    ∧ (∀ reg insn, ReflectionAnalysis.get_abstract_object ra reg insn
                   = None)
    ∧ ReflectionAnalysis.get_reflection_sites ra = Abort NullDereference
    ∧ ReflectionAnalysis.has_found_reflection ra = Abort NullDereference.
Proof.
  intros dex_method. eexists. split; [reflexivity|]. by repeat split.
Qed.

End Queries.

(** ** Reflective lookups on a class object *)

Section ClassLookups.

Import Analyzer Spec.

Implicit Types (pool : gset string) (insn : IRInstruction).
Implicit Types (E F : AbstractObjectEnvironment).

(** Whatever class the receiver stands for, the element a lookup
    yields is filed under the class of the callee, and every lookup
    handle is a method of [java.lang.Class]. *)
Lemma class_lookup_files_under_callee pool insn E receiver callee k name :
  kind receiver = CLASS →
  get_method insn = Ok callee →
  class_element pool E insn callee = Ok (k, Some name) →
  process_virtual_call pool insn receiver E
  = Ok (env_set RESULT_REGISTER
          (Constant (member_object k (Some (method_class callee))
                       (Some name))) E).
Proof.
  intros Hk Hm Hel. unfold process_virtual_call.
  rewrite Hm. simpl. rewrite Hk, Hel. done.
Qed.

(** C1 (the code at the scenario of the claim): after
    [const-string "com.foo.Bar"; Class.forName; getDeclaredMethod("doIt")]
    the receiver register holds the class [Lcom/foo/Bar;] and the name
    register the string [doIt], yet [RESULT_REGISTER] holds
    [METHOD{Ljava/lang/Class;:doIt}], not
    [METHOD{Lcom/foo/Bar;:doIt}]. *)
Theorem C1_get_declared_method_files_under_class :
  (F ← Scenario.transfer_all Scenario.pool Scenario.for_name_chain env_top;
   Ok (env_get 1 F, env_get 2 F, env_get RESULT_REGISTER F,
       show <$> get_constant (env_get RESULT_REGISTER F)))
  = Ok (Constant (class_object (Some "Lcom/foo/Bar;") REFLECTION),
        Constant (string_object (Some "doIt")),
        Constant (member_object METHOD (Some "Ljava/lang/Class;")
                    (Some "doIt")),
        Some (Ok "METHOD{Ljava/lang/Class;:doIt}"))
  ∧ member_object METHOD (Some "Ljava/lang/Class;") (Some "doIt")
    ≠ member_object METHOD (Some "Lcom/foo/Bar;") (Some "doIt").
Proof. split; [by vm_compute|discriminate]. Qed.

(** C4 (the code at the scenario of the claim): after
    [const-class Baz.class; getDeclaredConstructors()], with the
    token [<init>] interned, [RESULT_REGISTER] holds
    [METHOD{Ljava/lang/Class;:<init>}], not [METHOD{LBaz;:<init>}]. *)
Theorem C4_constructor_lookup_files_under_class :
  (F ← Scenario.transfer_all Scenario.pool Scenario.constructor_lookup
         env_top;
   Ok (env_get 0 F, env_get RESULT_REGISTER F,
       show <$> get_constant (env_get RESULT_REGISTER F)))
  = Ok (Constant (class_object (Some "LBaz;") REFLECTION),
        Constant (member_object METHOD (Some "Ljava/lang/Class;")
                    (Some "<init>")),
        Some (Ok "METHOD{Ljava/lang/Class;:<init>}"))
  ∧ member_object METHOD (Some "Ljava/lang/Class;") (Some "<init>")
    ≠ member_object METHOD (Some "LBaz;") (Some "<init>").
Proof. split; [by vm_compute|discriminate]. Qed.

End ClassLookups.

(** ** Seeding of the entry state *)

Section Seeding.

Import Analyzer Spec.

Implicit Types (dex_method : DexMethod) (insn : IRInstruction).
Implicit Types (E : AbstractObjectEnvironment).

Lemma load_param_writes_dest insn :
  well_formed insn → is_load_param (opcode insn) = true →
  has_move_result insn = false
  ∧ ∃ d, dests insn = Some d ∧ to_register (d + 1) = d + 1.
Proof.
  intros Hwf Hop.
  pose proof (wf_param_dest _ Hwf Hop) as Hd.
  destruct (dests insn) as [d|] eqn:Hdest; [|done].
  split.
  - destruct (has_move_result insn) eqn:Hmr; [|done].
    pose proof (wf_result_or_dest _ Hwf Hmr). congruence.
  - exists d. split; [done|].
    pose proof (wf_dest _ Hwf d Hdest) as Hlt.
    unfold to_register, register_modulus, RESULT_REGISTER in *.
    apply N.mod_small. lia.
Qed.

Lemma update_non_string_input_param E insn d T :
  has_move_result insn = false → dests insn = Some d →
  update_non_string_input E insn T = Ok (bind_parameter E d T).
Proof.
  intros Hmr Hd. unfold update_non_string_input, dest, bind_parameter.
  rewrite Hmr, Hd. simpl. unfold get_class_type.
  by case_bool_decide.
Qed.

(** A run of primitive parameter loads is seeded alike by the loop
    of [run] and by the positional reading, whatever the cursor. *)
Lemma seed_parameters_primitives dex_method entry first sig_it position E :
  Forall well_formed entry → primitives_only entry = true →
  seed_parameters dex_method entry first sig_it E
  = seed_by_position dex_method position entry E.
Proof.
  intros Hwf. revert position E.
  induction Hwf as [|insn rest Hinsn _ IH]; intros position E Hprim;
    [done|].
  simpl in *.
  destruct (opcode insn) eqn:Hop; try done; try by destruct (dests insn).
  - destruct (load_param_writes_dest insn Hinsn) as (Hmr & d & Hd & Hd1);
      [by rewrite Hop|].
    rewrite Hd. unfold default_semantics. rewrite Hd, Hmr, Hd1.
    by apply IH.
  - destruct (load_param_writes_dest insn Hinsn) as (Hmr & d & Hd & Hd1);
      [by rewrite Hop|].
    rewrite Hd. unfold default_semantics. rewrite Hd, Hmr, Hd1.
    by apply IH.
Qed.

Lemma cursor_reads_parameter_type (sig : list DexType) p :
  match drop p sig with
  | [] => sig !! p = None
  | T :: rest => sig !! p = Some T ∧ rest = drop (S p) sig
  end.
Proof.
  destruct (sig !! p) as [T|] eqn:Hp.
  - rewrite (drop_S _ _ _ Hp). done.
  - apply lookup_ge_None in Hp. by rewrite drop_ge.
Qed.

(** Where no object parameter follows a primitive one, the loop of
    [run] seeds the state that the positional reading of the
    specification describes, and fails when that one does. *)
Lemma seed_parameters_positional dex_method entry first sig_it position E F :
  Forall well_formed entry → objects_first entry = true →
  cursor_at dex_method first sig_it position →
  seed_parameters dex_method entry first sig_it E = Ok F
  ↔ seed_by_position dex_method position entry E = Ok F.
Proof.
  intros Hwf. revert first sig_it position E.
  induction Hwf as [|insn rest Hinsn Hrest IH];
    intros first sig_it position E Hobj Hcur; [done|].
  assert (opcode insn = IOPCODE_LOAD_PARAM
          ∨ opcode insn = IOPCODE_LOAD_PARAM_WIDE →
          seed_parameters dex_method (insn :: rest) first sig_it E
          = seed_by_position dex_method position (insn :: rest) E) as Hprim.
  { intros Hop. apply seed_parameters_primitives; [by constructor|].
    destruct Hop as [Hop|Hop]; simpl in *; by rewrite Hop in *. }
  destruct (opcode insn) eqn:Hop;
    try (rewrite Hprim by auto; done).
  all: simpl in *; rewrite Hop in *;
    try done; try by destruct (dests insn).
  destruct (load_param_writes_dest insn Hinsn) as (Hmr & d & Hd & _);
    [by rewrite Hop|].
  rewrite Hd. unfold cursor_at, parameter_type in *.
  destruct (is_static dex_method) eqn:Hstatic.
    + rewrite andb_false_r. subst sig_it.
      pose proof (cursor_reads_parameter_type (signature dex_method)
                    position) as Hread.
      destruct (drop position (signature dex_method)) as [|T next].
      * rewrite Hread. done.
      * destruct Hread as [-> ->].
        rewrite (update_non_string_input_param _ _ d) by done. simpl.
        apply IH; [done|]. simpl. by repeat split.
    + destruct position as [|p].
      * destruct Hcur as [-> ->]. simpl.
        rewrite (update_non_string_input_param _ _ d) by done. simpl.
        apply IH; [done|]. simpl. by repeat split.
      * destruct Hcur as [-> ->]. simpl.
        pose proof (cursor_reads_parameter_type (signature dex_method) p)
          as Hread.
        destruct (drop p (signature dex_method)) as [|T next].
        -- rewrite Hread. done.
        -- destruct Hread as [-> ->].
           rewrite (update_non_string_input_param _ _ d) by done. simpl.
           apply IH; [done|]. simpl. by repeat split.
Qed.

(** X21: where no object parameter follows a primitive one in the
    parameter run of a well-formed entry block, the seeding of [run]
    yields a state exactly when the positional reading of the
    specification yields it: every object parameter is bound by the
    type the signature has at its position. *)
Theorem initial_state_positional_when_objects_first dex_method entry F :
  Forall well_formed entry → objects_first entry = true →
  initial_state dex_method entry = Ok F
  ↔ seed_by_position dex_method 0 entry env_top = Ok F.
Proof.
  intros Hwf Hobj. unfold initial_state.
  apply seed_parameters_positional; [done..|].
  unfold cursor_at. by destruct (is_static dex_method).
Qed.

Lemma initial_state_positional_when_objects_first_witness :
  seed_by_position Scenario.seeded_method 0 Scenario.seeded_entry env_top
  = Ok (EnvValue {[ 0 := plain_object (Some "LFoo;");
                    1 := class_object None NON_REFLECTION;
                    2 := plain_object (Some "Ljava/lang/String;") ]}).
Proof.
  apply (initial_state_positional_when_objects_first Scenario.seeded_method
           Scenario.seeded_entry).
  - repeat apply Forall_cons_2; try apply Forall_nil_2;
      (split; simpl;
       [ done | done
       | intros d [= <-]; by vm_compute
       | intros s Hs; by apply elem_of_nil in Hs ]).
  - reflexivity.
  - by vm_compute.
Defined.

(** C7 (the code where an object parameter follows a primitive one):
    for [static void Foo.baz(int, Class, Foo[])] the claim binds [v1],
    the [Class] parameter, to an unknown non-reflective class and
    [v2] to an object of [[LFoo;].  The loop of [run] does not advance
    its cursor over the [int] parameter, so it binds [v1] to an object
    of type [I] and [v2] by the type of [v1], and the array type is
    never read. *)
Theorem C7_object_after_primitive_takes_wrong_type :
  initial_state Scenario.mixed_method Scenario.mixed_entry
  = Ok (EnvValue {[ 1 := plain_object (Some "I");
                    2 := class_object None NON_REFLECTION ]})
  ∧ seed_by_position Scenario.mixed_method 0 Scenario.mixed_entry env_top
    = Ok (EnvValue {[ 1 := class_object None NON_REFLECTION;
                      2 := plain_object (Some "[LFoo;") ]})
  ∧ initial_state Scenario.mixed_method Scenario.mixed_entry
    ≠ seed_by_position Scenario.mixed_method 0 Scenario.mixed_entry
        env_top.
Proof.
  split; [by vm_compute|]. split; [by vm_compute|].
  intros Heq. vm_compute in Heq. discriminate Heq.
Qed.

End Seeding.

(** ** What an instruction leaves in the result register *)

Section ResultRegister.

Import Analyzer Spec.

Implicit Types (pool : gset string) (insn : IRInstruction).
Implicit Types (E F G : AbstractObjectEnvironment).

Lemma same_result_written_const E1 E2 d :
  d ≠ Bottom →
  same_result_written E1 E2 (Ok (env_set RESULT_REGISTER d E1))
    (Ok (env_set RESULT_REGISTER d E2)).
Proof. intros Hd F G [= <-] [= <-]. eauto. Qed.

Lemma same_result_written_abort_l E1 E2 f o :
  same_result_written E1 E2 (Abort f) o.
Proof. by intros F G. Qed.

Lemma same_result_written_abort_r E1 E2 f o :
  same_result_written E1 E2 o (Abort f).
Proof. by intros F G. Qed.

Lemma update_non_string_input_result E insn T :
  has_move_result insn = true →
  ∃ c, update_non_string_input E insn T
       = Ok (env_set RESULT_REGISTER (Constant c) E)
       ∧ ∀ E', update_non_string_input E' insn T
               = Ok (env_set RESULT_REGISTER (Constant c) E').
Proof.
  intros Hmr. unfold update_non_string_input. rewrite Hmr. simpl.
  case_bool_decide; eauto.
Qed.

Lemma update_non_string_input_written E1 E2 insn T :
  has_move_result insn = true →
  same_result_written E1 E2 (update_non_string_input E1 insn T)
    (update_non_string_input E2 insn T).
Proof.
  intros Hmr.
  destruct (update_non_string_input_result E1 insn T Hmr) as (c & -> & Hc).
  rewrite Hc. by apply same_result_written_const.
Qed.

Lemma update_return_object_written E1 E2 insn :
  has_move_result insn = true → returns_object insn = true →
  same_result_written E1 E2 (update_return_object E1 insn)
    (update_return_object E2 insn).
Proof.
  intros Hmr Hret. unfold update_return_object, get_method.
  unfold returns_object in Hret.
  destruct (operand insn) as [| | | |callee]; try discriminate Hret.
  simpl. apply andb_true_iff in Hret as [Hv Ho].
  apply negb_true_iff in Hv. rewrite Hv, Ho. simpl.
  by apply update_non_string_input_written.
Qed.

Lemma default_semantics_written E1 E2 insn :
  has_move_result insn = true → dests insn = None →
  same_result_written E1 E2 (Ok (default_semantics insn E1))
    (Ok (default_semantics insn E2)).
Proof.
  intros Hmr Hd. unfold default_semantics. rewrite Hmr, Hd.
  by apply same_result_written_const.
Qed.

Lemma get_dex_string_from_insn_agree E1 E2 insn i :
  well_formed insn → agree_off_result E1 E2 →
  get_dex_string_from_insn E1 insn i = get_dex_string_from_insn E2 insn i.
Proof.
  intros Hwf (_ & _ & Hag). unfold get_dex_string_from_insn, src.
  destruct (srcs insn !! i) as [r|] eqn:Hr; [|done]. simpl.
  rewrite Hag; [done|].
  apply (wf_srcs _ Hwf). by apply list_elem_of_lookup_2 in Hr.
Qed.

Lemma class_element_agree pool E1 E2 insn callee :
  well_formed insn → agree_off_result E1 E2 →
  class_element pool E1 insn callee = class_element pool E2 insn callee.
Proof.
  intros Hwf Hag. unfold class_element.
  by rewrite (get_dex_string_from_insn_agree E1 E2 insn 1).
Qed.

Lemma process_virtual_call_written pool E1 E2 insn receiver :
  well_formed insn → has_move_result insn = true →
  returns_object insn = true → agree_off_result E1 E2 →
  same_result_written E1 E2 (process_virtual_call pool insn receiver E1)
    (process_virtual_call pool insn receiver E2).
Proof.
  intros Hwf Hmr Hret Hag. unfold process_virtual_call.
  pose proof (update_return_object_written E1 E2 insn Hmr Hret) as Hgen.
  destruct (get_method insn) as [callee|f]; simpl;
    [|apply same_result_written_abort_l].
  destruct (kind receiver).
  - case_bool_decide; [by apply same_result_written_const|done].
  - case_bool_decide; [by apply same_result_written_const|done].
  - rewrite (class_element_agree pool E1 E2) by done.
    destruct (class_element pool E2 insn callee) as [[k [name|]]|f]; simpl;
      [by apply same_result_written_const|done
      |apply same_result_written_abort_l].
  - destruct (_ || _); [by apply same_result_written_const|done].
  - destruct (_ || _); [by apply same_result_written_const|done].
Qed.

Lemma src_real insn i r :
  well_formed insn → src insn i = Ok r → r < RESULT_REGISTER.
Proof.
  intros Hwf. unfold src.
  destruct (srcs insn !! i) as [r'|] eqn:Hr; [|done]. intros [= <-].
  apply (wf_srcs _ Hwf). by apply list_elem_of_lookup_2 in Hr.
Qed.

Lemma env_get_not_bottom r E : is_bottom E = false → env_get r E ≠ Bottom.
Proof. destruct E; [done|]. intros _. apply env_get_value_ne_bottom. Qed.

(** Every rule of an instruction that writes the result register
    writes it with a value read off the instruction and the other
    registers. *)
Lemma analyze_instruction_written pool insn E1 E2 :
  well_formed insn → has_move_result insn = true →
  (is_invoke (opcode insn) = true → returns_object insn = true) →
  agree_off_result E1 E2 →
  same_result_written E1 E2 (analyze_instruction pool insn E1)
    (analyze_instruction pool insn E2).
Proof.
  intros Hwf Hmr Hret Hag.
  pose proof (wf_result_or_dest _ Hwf Hmr) as Hd.
  pose proof Hag as (Hb1 & Hb2 & Hregs).
  unfold analyze_instruction.
  destruct (opcode insn) eqn:Hop; simpl in Hret;
    try (by destruct (wf_param_dest _ Hwf); [rewrite Hop|]);
    try (unfold dest; rewrite Hd; simpl;
         by apply same_result_written_abort_l);
    try (destruct (insn_get_string insn); simpl;
         [by apply same_result_written_const
         |by apply same_result_written_abort_l]);
    try (destruct (get_type insn); simpl;
         [by apply same_result_written_const
         |by apply same_result_written_abort_l]);
    try (by apply update_return_object_written; auto);
    try (by apply default_semantics_written).
  - (* check-cast *)
    destruct (src insn 0) as [s|f] eqn:Hs; simpl;
      [|apply same_result_written_abort_l].
    rewrite (Hregs s) by eauto using src_real.
    apply same_result_written_const. by apply env_get_not_bottom.
  - (* aget-object *)
    destruct (src insn 0) as [s|f] eqn:Hs; simpl;
      [|apply same_result_written_abort_l].
    rewrite (Hregs s) by eauto using src_real.
    destruct (get_constant (env_get s E2)) as [a|];
      [|by apply default_semantics_written].
    destruct (dex_type a) as [t|]; [|by apply default_semantics_written].
    destruct (is_array t); [|by apply default_semantics_written].
    by apply update_non_string_input_written.
  - (* iget-object *)
    destruct (get_field insn); simpl;
      [by apply update_non_string_input_written
      |apply same_result_written_abort_l].
  - (* sget-object *)
    destruct (get_field insn); simpl;
      [by apply update_non_string_input_written
      |apply same_result_written_abort_l].
  - (* invoke-virtual *)
    destruct (src insn 0) as [s|f] eqn:Hs; simpl;
      [|apply same_result_written_abort_l].
    rewrite (Hregs s) by eauto using src_real.
    destruct (get_constant (env_get s E2)) as [receiver|].
    + apply process_virtual_call_written; auto.
    + apply update_return_object_written; auto.
  - (* invoke-static *)
    pose proof (update_return_object_written E1 E2 insn Hmr (Hret eq_refl))
      as Hgen.
    destruct (get_method insn) as [callee|f]; simpl;
      [|apply same_result_written_abort_l].
    case_bool_decide; [|done].
    destruct (src insn 0) as [s|f] eqn:Hs; simpl;
      [|apply same_result_written_abort_l].
    rewrite (Hregs s) by eauto using src_real.
    destruct (get_constant (env_get s E2)) as [class_name|]; [|done].
    destruct (bool_decide (kind class_name = STRING)); [|done].
    destruct (dex_string class_name);
      [by apply same_result_written_const
      |apply same_result_written_abort_l].
Qed.

End ResultRegister.

Section GenericBinding.

Import Analyzer Spec.

Implicit Types (pool : gset string) (insn : IRInstruction).
Implicit Types (E F : AbstractObjectEnvironment).

Lemma reflection_vmethods_elem callee :
  callee ∈ reflection_vmethods ↔
    callee = m_get_class ∨ callee = m_get_method
    ∨ callee = m_get_declared_method
    ∨ callee ∈ m_ctor_lookup_vmethods
    ∨ callee = m_get_field ∨ callee = m_get_declared_field
    ∨ callee = m_get_method_name ∨ callee = m_get_field_name.
Proof.
  unfold reflection_vmethods.
  rewrite !elem_of_app, !elem_of_cons, elem_of_nil. tauto.
Qed.

(** Every handle the analyzer has a rule for returns a reference. *)
Lemma handle_returns_reference callee :
  callee ∈ reflection_vmethods ∨ callee = m_for_name →
  negb (is_void (get_rtype (get_proto callee)))
  && is_object (get_rtype (get_proto callee)) = true.
Proof.
  rewrite reflection_vmethods_elem. unfold m_ctor_lookup_vmethods.
  rewrite !elem_of_cons, elem_of_nil.
  intros H. decompose [or] H; try contradiction; subst callee; reflexivity.
Qed.

(** Without a matching handle a virtual call is the generic
    return-object binding, whatever the receiver. *)
Lemma process_virtual_call_generic pool insn receiver E callee :
  get_method insn = Ok callee → callee ∉ reflection_vmethods →
  process_virtual_call pool insn receiver E = update_return_object E insn.
Proof.
  intros Hm Hnot. rewrite reflection_vmethods_elem in Hnot.
  unfold process_virtual_call, class_element. rewrite Hm. simpl.
  destruct (kind receiver);
    rewrite ?(bool_decide_false (callee = _)),
            ?(bool_decide_false (callee ∈ _)) by tauto; simpl;
    rewrite ?andb_false_r; done.
Qed.

Lemma update_return_object_primitive E F insn :
  returns_object insn = false →
  update_return_object E insn = Ok F → F = E.
Proof.
  unfold returns_object, update_return_object, get_method.
  destruct (operand insn) as [| | | |callee]; try done. simpl.
  intros Hret.
  destruct (is_void _); simpl in *; [by intros [= <-]|].
  rewrite Hret. simpl. by intros [= <-].
Qed.

Lemma primitive_callee_has_no_rule insn callee :
  returns_object insn = false → get_method insn = Ok callee →
  (callee ∉ reflection_vmethods) ∧ (callee ≠ m_for_name).
Proof.
  unfold returns_object, get_method.
  destruct (operand insn) as [| | | |m]; try done.
  intros Hret [= ->].
  split; intros H;
    rewrite handle_returns_reference in Hret by auto; done.
Qed.

(** An invoke of a callee that returns [void] or a primitive leaves
    the state as it is. *)
Lemma invoke_primitive_keeps_state pool insn E F :
  is_invoke (opcode insn) = true → returns_object insn = false →
  analyze_instruction pool insn E = Ok F → F = E.
Proof.
  intros Hinv Hret. unfold analyze_instruction.
  destruct (opcode insn); try discriminate Hinv;
    try by apply update_return_object_primitive.
  - destruct (src insn 0) as [s|]; [simpl|done].
    destruct (get_constant (env_get s E)) as [receiver|];
      [|by apply update_return_object_primitive].
    destruct (get_method insn) as [callee|f] eqn:Hm.
    + destruct (primitive_callee_has_no_rule insn callee) as [Hnot _];
        [done..|].
      rewrite (process_virtual_call_generic _ _ _ _ callee) by done.
      by apply update_return_object_primitive.
    + unfold process_virtual_call. by rewrite Hm.
  - destruct (get_method insn) as [callee|f] eqn:Hm; [simpl|done].
    destruct (primitive_callee_has_no_rule insn callee) as [_ Hne];
      [done..|].
    rewrite bool_decide_false by done.
    by apply update_return_object_primitive.
Qed.

(** C5 (as the claim states it, refuted): [invoke-static
    Integer.parseInt] leaves its [int] result for a following
    [move-result], yet the transfer keeps in [RESULT_REGISTER] the
    string an earlier [const-string] put there. *)
Lemma C5_primitive_invoke_keeps_stale_result :
  let insn :=
    Scenario.invoke OPCODE_INVOKE_STATIC Scenario.parse_int [0] in
  let stale := Constant (string_object (Some "stale")) in
  let E := env_set RESULT_REGISTER stale env_top in
  has_move_result insn = true
  ∧ analyze_instruction Scenario.pool insn E = Ok E
  ∧ env_get RESULT_REGISTER E = stale
  ∧ ¬ result_never_stale Scenario.pool insn.
Proof.
  intros insn stale E. repeat split.
  intros Hnever.
  specialize (Hnever ∅ stale Top _ _ ltac:(done) ltac:(done)
                eq_refl eq_refl).
  vm_compute in Hnever. discriminate Hnever.
Qed.

(** C5 (amended): an instruction that writes a conventional result
    leaves in [RESULT_REGISTER] top or a constant that its rule reads
    off the instruction and the other registers, never what the
    register held before, unless it is an invoke whose callee returns
    [void] or a primitive: that one leaves the state, and with it
    [RESULT_REGISTER], as it was. *)
Theorem C5_result_register_rewritten pool insn :
  well_formed insn → has_move_result insn = true →
  if is_invoke (opcode insn) && negb (returns_object insn)
  then ∀ E F, analyze_instruction pool insn E = Ok F → F = E
  else
    result_never_stale pool insn
    ∧ ∀ m F, analyze_instruction pool insn (EnvValue m) = Ok F →
             env_get RESULT_REGISTER F = Top
             ∨ ∃ c, env_get RESULT_REGISTER F = Constant c.
Proof.
  intros Hwf Hmr.
  destruct (is_invoke (opcode insn) && negb (returns_object insn)) eqn:Hcase.
  { apply andb_true_iff in Hcase as [Hinv Hret].
    apply negb_true_iff in Hret.
    intros E F. by apply invoke_primitive_keeps_state. }
  assert (is_invoke (opcode insn) = true → returns_object insn = true)
    as Hret.
  { intros Hinv. rewrite Hinv in Hcase. simpl in Hcase.
    by apply negb_false_iff in Hcase. }
  split.
  - intros m v w F G Hv Hw HF HG.
    destruct (analyze_instruction_written pool insn
                (env_set RESULT_REGISTER v (EnvValue m))
                (env_set RESULT_REGISTER w (EnvValue m)) Hwf Hmr Hret)
      with (F := F) (G := G) as (d & Hd & -> & ->); [|done..|].
    { repeat split.
      - rewrite is_bottom_set. simpl. by rewrite bool_decide_false.
      - rewrite is_bottom_set. simpl. by rewrite bool_decide_false.
      - intros r Hr. by rewrite !env_get_set_ne by (done || lia). }
    rewrite !env_get_set, !is_bottom_set. simpl.
    by do 2 (case_bool_decide; [done|]).
  - intros m F HF.
    destruct (analyze_instruction_written pool insn (EnvValue m)
                (EnvValue m) Hwf Hmr Hret)
      with (F := F) (G := F) as (d & Hd & -> & _); [done..|].
    rewrite env_get_set_eq by done.
    destruct d; [done|eauto|eauto].
Qed.

Lemma C5_result_register_rewritten_witness :
  let insn := Scenario.invoke OPCODE_INVOKE_VIRTUAL m_get_class [0] in
  result_never_stale Scenario.pool insn.
Proof.
  intros insn.
  assert (well_formed insn) as Hwf.
  { split; [done|done|done|].
    intros s Hs. apply list_elem_of_singleton in Hs. by subst. }
  exact (proj1 (C5_result_register_rewritten Scenario.pool insn Hwf
                  eq_refl)).
Defined.

End GenericBinding.

(** ** Monotonicity of the transfer function *)

Section Monotonicity.

Import Analyzer Spec.

Implicit Types (pool : gset string) (insn : IRInstruction).
Implicit Types (E F : AbstractObjectEnvironment).

Lemma env_leq_set_top r E E' :
  env_leq E E' → env_leq E (env_set r Top E').
Proof.
  intros HE r0. rewrite env_get_set.
  destruct E' as [|m']; [by apply env_leq_bottom_inv in HE; subst|].
  simpl. case_bool_decide; [apply domain_leq_top|apply HE].
Qed.

Lemma default_semantics_bottom insn :
  default_semantics insn EnvBottom = EnvBottom.
Proof.
  unfold default_semantics.
  by destruct (dests insn), (dest_is_wide insn), (has_move_result insn).
Qed.

Lemma default_semantics_mono insn E E' :
  env_leq E E' →
  env_leq (default_semantics insn E) (default_semantics insn E').
Proof.
  intros HE. unfold default_semantics.
  destruct (dests insn), (dest_is_wide insn), (has_move_result insn);
    repeat apply env_set_mono; done.
Qed.

Lemma update_non_string_input_mono insn T E E' F F' :
  env_leq E E' →
  update_non_string_input E insn T = Ok F →
  update_non_string_input E' insn T = Ok F' →
  env_leq F F'.
Proof.
  intros HE. unfold update_non_string_input.
  destruct (if has_move_result insn then _ else _) as [dest_reg|]; [|done].
  simpl. case_bool_decide; intros [= <-] [= <-];
    by apply env_set_mono; [|apply domain_leq_refl].
Qed.

Lemma update_return_object_mono insn E E' F F' :
  env_leq E E' →
  update_return_object E insn = Ok F →
  update_return_object E' insn = Ok F' →
  env_leq F F'.
Proof.
  intros HE. unfold update_return_object.
  destruct (get_method insn) as [callee|]; [simpl|done].
  destruct (_ || _); [by intros [= <-] [= <-]|].
  by apply update_non_string_input_mono.
Qed.

(** A binding of the destination is below its clobbering. *)
Lemma update_non_string_input_below_default insn T E E' F :
  env_leq E E' →
  update_non_string_input E insn T = Ok F →
  env_leq F (default_semantics insn E').
Proof.
  intros HE. unfold update_non_string_input, default_semantics, dest.
  destruct (has_move_result insn), (dests insn) as [d|],
    (dest_is_wide insn); simpl; try done;
    case_bool_decide; intros [= <-];
    repeat first [ apply env_set_mono; [|done] | apply env_leq_set_top ];
    done.
Qed.

(** Equal constructed objects store the same type. *)
Lemma constructed_eq_dex_type (a a' : AbstractObject) :
  constructed a → constructed a' → abstract_object_eq a a' = true →
  dex_type a = dex_type a'.
Proof.
  unfold constructed. intros Ha Ha' Heq.
  apply abstract_object_eq_spec in Heq as [Hk Heq]. rewrite <- Hk in Ha'.
  destruct (kind a); intuition congruence.
Qed.

Lemma domain_leq_top_inv (d : AbstractObjectDomain) :
  domain_leq Top d = true → d = Top.
Proof. by destruct d. Qed.

Lemma process_virtual_call_no_rule pool insn receiver E :
  opcode insn = OPCODE_INVOKE_VIRTUAL → models_reflection insn = false →
  process_virtual_call pool insn receiver E = update_return_object E insn.
Proof.
  unfold models_reflection. intros -> Hno.
  destruct (operand insn) as [| | | |callee] eqn:Hoperand;
    try (unfold process_virtual_call, update_return_object, get_method;
         by rewrite Hoperand).
  apply (process_virtual_call_generic _ _ _ _ callee).
  - unfold get_method. by rewrite Hoperand.
  - by apply bool_decide_eq_false in Hno.
Qed.

(** C3 (as the claim states it, refuted): with [v0] holding an
    object of [LFoo;] in [E] and top in [E'], [E] is below [E'], but
    after [invoke-virtual v0.getClass()] the result register holds
    the reflective class of [LFoo;] in the one and an unknown
    non-reflective class in the other, two constants that are not
    comparable. *)
Lemma C3_get_class_not_monotone :
  let insn := Scenario.invoke OPCODE_INVOKE_VIRTUAL m_get_class [0] in
  let E := env_set 0 (Constant (plain_object (Some "LFoo;"))) env_top in
  let E' := env_top in
  env_leq E E'
  ∧ (F ← analyze_instruction Scenario.pool insn E;
     Ok (env_get RESULT_REGISTER F))
    = Ok (Constant (class_object (Some "LFoo;") REFLECTION))
  ∧ (F' ← analyze_instruction Scenario.pool insn E';
     Ok (env_get RESULT_REGISTER F'))
    = Ok (Constant (class_object None NON_REFLECTION))
  ∧ ¬ monotone Scenario.pool insn.
Proof.
  intros insn E E'.
  assert (env_leq E E') as HE.
  { intros r. unfold E, E', env_top. rewrite env_get_set. simpl.
    rewrite lookup_empty. by case_bool_decide. }
  repeat split; [done|].
  intros Hmono.
  assert (env_constructed E) as HcE.
  { intros r a. unfold E, env_top. rewrite env_get_set. simpl.
    rewrite lookup_empty. case_bool_decide; [|done].
    intros [= <-]. done. }
  assert (env_constructed E') as HcE'.
  { intros r a. unfold E', env_top. simpl. by rewrite lookup_empty. }
  specialize (Hmono E E' _ _ HcE HcE' HE eq_refl eq_refl RESULT_REGISTER).
  vm_compute in Hmono. discriminate Hmono.
Qed.

(** C3 (amended): the transfer function is monotone on every
    instruction the analyzer does not model as a reflection API call,
    that is on every instruction but an [invoke-virtual] of one of
    the interned handles and an [invoke-static] of [Class.forName]. *)
Theorem C3_transfer_monotone_off_reflection_rules pool insn :
  models_reflection insn = false → monotone pool insn.
Proof.
  intros Hno E E' F F' HcE HcE' HE.
  unfold analyze_instruction.
  destruct (opcode insn) eqn:Hop;
    try (by intros [= <-] [= <-]);
    try (by apply update_return_object_mono);
    try (intros [= <-] [= <-]; by apply default_semantics_mono);
    try (destruct (insn_get_string insn); [simpl|done];
         intros [= <-] [= <-];
         by apply env_set_mono; [|apply domain_leq_refl]);
    try (destruct (get_type insn); [simpl|done];
         intros [= <-] [= <-];
         by apply env_set_mono; [|apply domain_leq_refl]);
    try (destruct (get_field insn); [simpl|done];
         by apply update_non_string_input_mono).
  - (* move-object *)
    destruct (dest insn); [simpl|done].
    destruct (src insn 0) as [s|]; [simpl|done].
    intros [= <-] [= <-]. by apply env_set_mono.
  - (* move-result-pseudo-object *)
    destruct (dest insn); [simpl|done].
    intros [= <-] [= <-]. by apply env_set_mono.
  - (* move-result-object *)
    destruct (dest insn); [simpl|done].
    intros [= <-] [= <-]. by apply env_set_mono.
  - (* check-cast *)
    destruct (src insn 0) as [s|]; [simpl|done].
    intros [= <-] [= <-]. by apply env_set_mono.
  - (* aget-object *)
    destruct (src insn 0) as [s|]; [simpl|done].
    pose proof (HE s) as Hs.
    destruct (env_get s E) as [|a|] eqn:Ha; simpl.
    + destruct E as [|m]; [|by apply env_get_value_ne_bottom in Ha].
      rewrite default_semantics_bottom. intros [= <-] _.
      apply env_leq_bottom.
    + destruct (env_get s E') as [|a'|] eqn:Ha'; simpl; [done| |].
      * simpl in Hs.
        rewrite <- (constructed_eq_dex_type a a') by eauto.
        destruct (dex_type a) as [t|];
          [|intros [= <-] [= <-]; by apply default_semantics_mono].
        destruct (is_array t);
          [|intros [= <-] [= <-]; by apply default_semantics_mono].
        by apply update_non_string_input_mono.
      * destruct (dex_type a) as [t|];
          [|intros [= <-] [= <-]; by apply default_semantics_mono].
        destruct (is_array t);
          [|intros [= <-] [= <-]; by apply default_semantics_mono].
        intros HF [= <-].
        by apply (update_non_string_input_below_default insn
                    (get_array_component_type t) E).
    + apply domain_leq_top_inv in Hs. rewrite Hs. simpl.
      intros [= <-] [= <-]. by apply default_semantics_mono.
  - (* invoke-virtual *)
    destruct (src insn 0) as [s|]; [cbn [mbind result_bind]|done].
    destruct (get_constant (env_get s E)), (get_constant (env_get s E'));
      rewrite ?(process_virtual_call_no_rule pool insn) by done;
      by apply update_return_object_mono.
  - (* invoke-static *)
    unfold models_reflection in Hno. rewrite Hop in Hno.
    unfold get_method.
    destruct (operand insn) as [| | | |callee] eqn:Hoperand; try done.
    simpl. rewrite Hno.
    by apply update_return_object_mono.
Qed.

Lemma C3_transfer_monotone_off_reflection_rules_witness :
  monotone Scenario.pool (Scenario.invoke OPCODE_INVOKE_STATIC
                            Scenario.parse_int [0])
  ∧ monotone Scenario.pool (Scenario.move_result_object 1).
Proof.
  split.
  - apply (C3_transfer_monotone_off_reflection_rules Scenario.pool
             (Scenario.invoke OPCODE_INVOKE_STATIC Scenario.parse_int [0])).
    reflexivity.
  - apply (C3_transfer_monotone_off_reflection_rules Scenario.pool
             (Scenario.move_result_object 1)).
    reflexivity.
Defined.

End Monotonicity.

Section EqualityWitness.

Lemma C8_equality_by_variant_witness :
  abstract_object_eq (string_object (Some "doIt"))
    (mkAbstractObject STRING (Some "LFoo;") (Some "doIt") REFLECTION)
  = true
  ∧ abstract_object_eq (class_object (Some "LFoo;") REFLECTION)
      (class_object (Some "LFoo;") NON_REFLECTION)
    = false.
Proof.
  split.
  - apply (proj1 (proj2 (proj2
             (C8_equality_by_variant (string_object (Some "doIt"))
                (mkAbstractObject STRING (Some "LFoo;") (Some "doIt")
                   REFLECTION)))) eq_refl eq_refl).
    reflexivity.
  - destruct (abstract_object_eq (class_object (Some "LFoo;") REFLECTION)
                (class_object (Some "LFoo;") NON_REFLECTION)) eqn:Heq;
      [|reflexivity].
    apply (proj1 (proj2 (proj2 (proj2
             (C8_equality_by_variant
                (class_object (Some "LFoo;") REFLECTION)
                (class_object (Some "LFoo;") NON_REFLECTION)))))
             eq_refl eq_refl) in Heq.
    destruct Heq as [_ Hsrc]. discriminate Hsrc.
Defined.

End EqualityWitness.

(** ** Further properties of the abstract objects *)

Section ObjectFacts.

Import Spec Invariant.

Implicit Types x y z : AbstractObject.

(** X1: [operator==] is an equivalence relation on the struct:
    reflexive, symmetric and transitive, and [operator!=] is its
    negation. *)
Theorem abstract_object_eq_equivalence :
  (∀ x, abstract_object_eq x x = true)
  ∧ (∀ x y, abstract_object_eq x y = abstract_object_eq y x)
  ∧ (∀ x y z, abstract_object_eq x y = true →
              abstract_object_eq y z = true →
              abstract_object_eq x z = true)
  ∧ (∀ x y, abstract_object_neq x y = negb (abstract_object_eq x y)).
Proof.
  split; [apply abstract_object_eq_refl|].
  split; [|split]; [| |done].
  - intros x y. apply Bool.eq_iff_eq_true.
    rewrite !abstract_object_eq_spec.
    destruct (kind x) eqn:Hx, (kind y) eqn:Hy; intuition congruence.
  - intros x y z. rewrite !abstract_object_eq_spec.
    intros [Hxy Hf] [Hyz Hg]. split; [congruence|].
    rewrite <- Hxy in Hg.
    destruct (kind x); intuition congruence.
Qed.

(** X2: on objects built by the constructors, [operator==] decides
    equality of the structs: two such objects compare equal exactly
    when all four stored fields agree. *)
Theorem abstract_object_eq_constructed x y :
  constructed x → constructed y →
  (abstract_object_eq x y = true ↔ x = y).
Proof.
  intros Hx Hy. split; [|intros ->; apply abstract_object_eq_refl].
  rewrite abstract_object_eq_spec. unfold constructed in *.
  destruct x as [kx tx sx cx], y as [ky ty sy cy]. simpl in *.
  intros [-> H]. destruct ky; simpl in *;
    f_equal; intuition congruence.
Qed.

Lemma abstract_object_eq_constructed_witness :
  abstract_object_eq (class_object (Some "LFoo;") REFLECTION)
    (class_object (Some "LFoo;") REFLECTION) = true
  ↔ class_object (Some "LFoo;") REFLECTION
    = class_object (Some "LFoo;") REFLECTION.
Proof.
  apply (abstract_object_eq_constructed
           (class_object (Some "LFoo;") REFLECTION)
           (class_object (Some "LFoo;") REFLECTION)); reflexivity.
Defined.

(** X3: the reflection-output predicate does not tell apart objects
    that [operator==] identifies. *)
Theorem is_reflection_output_respects_eq x y :
  abstract_object_eq x y = true →
  is_reflection_output x = is_reflection_output y.
Proof.
  rewrite abstract_object_eq_spec. unfold is_reflection_output.
  intros [Hk H]. rewrite <- Hk.
  destruct (kind x); simpl; try done.
  destruct H as [_ ->]. done.
Qed.

Lemma is_reflection_output_respects_eq_witness :
  is_reflection_output (member_object FIELD (Some "LBar;") (Some "count"))
  = is_reflection_output
      (mkAbstractObject FIELD (Some "LBar;") (Some "count") REFLECTION).
Proof.
  apply (is_reflection_output_respects_eq
           (member_object FIELD (Some "LBar;") (Some "count"))
           (mkAbstractObject FIELD (Some "LBar;") (Some "count")
              REFLECTION)).
  reflexivity.
Defined.

(** X4: printing fails in two cases only: a class object whose source
    is not applicable trips the assertion, and a string object without
    its string dereferences null.  In particular every sound object
    prints. *)
Theorem show_faults x :
  (show x = Abort AssertionFailure ↔
     kind x = CLASS ∧ cls_source x = NOT_APPLICABLE)
  ∧ (show x = Abort NullDereference ↔
       kind x = STRING ∧ dex_string x = None)
  ∧ (sound_object x → ∃ text, show x = Ok text).
Proof.
  unfold show, sound_object.
  destruct (kind x) eqn:Hk.
  - repeat split; try naive_solver; eauto.
  - destruct (dex_string x) as [str|]; [case_bool_decide|];
      repeat split; try naive_solver; eauto.
  - case_bool_decide as Hs; repeat split; try naive_solver; eauto.
  - repeat split; try naive_solver; eauto.
  - repeat split; try naive_solver; eauto.
Qed.

End ObjectFacts.

(** ** Footprint and invariants of the transfer function *)

Section Footprint.

Import Analyzer Spec Invariant.

Implicit Types (pool : gset string) (insn : IRInstruction).
Implicit Types (E F : AbstractObjectEnvironment).
Implicit Types (P : AbstractObject → Prop) (W : register_t → bool).

Lemma env_get_bottom_inv r E : env_get r E = Bottom → is_bottom E = true.
Proof.
  destruct E as [|m]; [done|]. intros H.
  by apply env_get_value_ne_bottom in H.
Qed.

Lemma admitted_get P E s : env_all P E → admitted_value P E (env_get s E).
Proof.
  intros HE. unfold admitted_value.
  destruct (env_get s E) as [|a|] eqn:Hs;
    [by apply env_get_bottom_inv in Hs|by apply (HE s)|done].
Qed.

Lemma written_from_bottom P W E F :
  written_from P W E F → is_bottom F = is_bottom E.
Proof.
  induction 1 as [|r d F _ IH _ Hd]; [done|].
  rewrite is_bottom_set, IH.
  destruct d; simpl in *; [by rewrite Hd|by rewrite orb_false_r..].
Qed.

Lemma written_from_frame P W E F r :
  written_from P W E F → W r = false → env_get r F = env_get r E.
Proof.
  intros HF Hr. induction HF as [|r' d F HF IH Hr' Hd]; [done|].
  pose proof (written_from_bottom _ _ _ _ HF) as Hb.
  rewrite env_get_set.
  destruct (is_bottom F) eqn:HbF.
  { destruct E; [done|discriminate Hb]. }
  destruct d; simpl in Hd; [congruence| |];
    (rewrite bool_decide_false by congruence; done).
Qed.

Lemma written_from_all P W E F :
  written_from P W E F → env_all P E → env_all P F.
Proof.
  intros HF HE. induction HF as [|r' d F HF IH Hr' Hd]; [done|].
  intros r a. rewrite env_get_set.
  destruct (is_bottom F); [done|].
  destruct d; [done| |]; case_bool_decide; try done;
    try apply IH. by intros [= <-].
Qed.

Lemma written_set_here P W E r d :
  W r = true → admitted_value P E d → written_from P W E (env_set r d E).
Proof. intros. apply written_set; [apply written_same|done..]. Qed.

Lemma may_write_result insn : may_write insn RESULT_REGISTER = true.
Proof. unfold may_write. by rewrite bool_decide_true. Qed.

Lemma may_write_dest insn d : dests insn = Some d → may_write insn d = true.
Proof.
  intros Hd. unfold may_write. rewrite Hd.
  rewrite (bool_decide_true (d = d)) by done. by rewrite orb_true_r.
Qed.

Lemma may_write_wide insn d :
  dests insn = Some d → dest_is_wide insn = true →
  may_write insn (to_register (d + 1)) = true.
Proof.
  intros Hd Hw. unfold may_write. rewrite Hd, Hw. simpl.
  rewrite (bool_decide_true (to_register (d + 1) = to_register (d + 1)))
    by done.
  by rewrite !orb_true_r.
Qed.

Lemma dest_inv insn d : dest insn = Ok d → dests insn = Some d.
Proof. unfold dest. destruct (dests insn); by intros [= <-]. Qed.

Lemma update_non_string_input_writes P insn T E F :
  rule_closed P insn →
  update_non_string_input E insn T = Ok F →
  written_from P (may_write insn) E F.
Proof.
  intros Hrc. unfold update_non_string_input.
  assert (∀ dest_reg,
            (if has_move_result insn then Ok RESULT_REGISTER else dest insn)
            = Ok dest_reg → may_write insn dest_reg = true) as Hw.
  { intros dest_reg. destruct (has_move_result insn).
    - intros [= <-]. apply may_write_result.
    - intros Hd. by apply may_write_dest, dest_inv. }
  destruct (if has_move_result insn then _ else _) as [dest_reg|];
    [simpl|done].
  case_bool_decide; intros [= <-]; apply written_set_here; auto;
    [apply (rc_unknown_class _ _ Hrc)|apply (rc_object _ _ Hrc)].
Qed.

Lemma update_return_object_writes P insn E F :
  rule_closed P insn →
  update_return_object E insn = Ok F →
  written_from P (may_write insn) E F.
Proof.
  intros Hrc. unfold update_return_object.
  destruct (get_method insn) as [callee|]; [simpl|done].
  destruct (_ || _); [intros [= <-]; apply written_same|].
  by apply update_non_string_input_writes.
Qed.

Lemma default_semantics_writes P insn E :
  written_from P (may_write insn) E (default_semantics insn E).
Proof.
  unfold default_semantics.
  assert (written_from P (may_write insn) E
            match dests insn with
            | Some d =>
                if dest_is_wide insn
                then env_set (to_register (d + 1)) Top (env_set d Top E)
                else env_set d Top E
            | None => E
            end) as Hc.
  { destruct (dests insn) as [d|] eqn:Hd; [|apply written_same].
    destruct (dest_is_wide insn) eqn:Hw.
    - apply written_set; [|by apply may_write_wide|done].
      apply written_set_here; [by apply may_write_dest|done].
    - apply written_set_here; [by apply may_write_dest|done]. }
  destruct (has_move_result insn); [|done].
  apply written_set; [done|apply may_write_result|done].
Qed.

(** A lookup that finds a name is a method or a field lookup. *)
Lemma class_element_kind pool E insn callee k name :
  class_element pool E insn callee = Ok (k, Some name) →
  k = FIELD ∨ k = METHOD.
Proof.
  unfold class_element.
  repeat case_match;
    try (destruct (get_dex_string_from_insn E insn 1); simpl);
    (intros [= <- ?] || done); auto.
Qed.

Lemma models_reflection_virtual insn callee :
  opcode insn = OPCODE_INVOKE_VIRTUAL → get_method insn = Ok callee →
  models_reflection insn = bool_decide (callee ∈ reflection_vmethods).
Proof.
  unfold models_reflection, get_method. intros ->.
  destruct (operand insn); try done. by intros [= ->].
Qed.

Lemma process_virtual_call_writes P pool insn receiver E F :
  rule_closed P insn → opcode insn = OPCODE_INVOKE_VIRTUAL →
  P receiver →
  process_virtual_call pool insn receiver E = Ok F →
  written_from P (may_write insn) E F.
Proof.
  intros Hrc Hop Hrecv.
  destruct (get_method insn) as [callee|f] eqn:Hm;
    [|unfold process_virtual_call; by rewrite Hm].
  pose proof (models_reflection_virtual insn callee Hop Hm) as Hmodel.
  case_bool_decide as Hin.
  2:{ rewrite (process_virtual_call_generic _ _ _ _ callee) by done.
      by apply update_return_object_writes. }
  destruct (rc_reflection _ _ Hrc Hmodel) as (Hclass & Hmember & Hname).
  pose proof (update_return_object_writes P insn E) as Hgen.
  unfold process_virtual_call. rewrite Hm. simpl.
  destruct (kind receiver) eqn:Hk.
  - case_bool_decide; [|by auto].
    intros [= <-]. apply written_set_here; [apply may_write_result|].
    apply Hclass.
  - case_bool_decide; [|by auto].
    intros [= <-]. apply written_set_here; [apply may_write_result|].
    apply Hclass.
  - destruct (class_element pool E insn callee) as [[k [name|]]|] eqn:Hel;
      simpl; [|by auto|done].
    intros [= <-]. apply written_set_here; [apply may_write_result|].
    apply Hmember. by apply class_element_kind in Hel.
  - destruct (_ || _); [|by auto].
    intros [= <-]. apply written_set_here; [apply may_write_result|].
    apply Hname; auto.
  - destruct (_ || _); [|by auto].
    intros [= <-]. apply written_set_here; [apply may_write_result|].
    apply Hname; auto.
Qed.

(** The rules of one instruction only write registers of its
    footprint, and only values the predicate admits. *)
Lemma analyze_instruction_writes P pool insn E F :
  rule_closed P insn → env_all P E →
  analyze_instruction pool insn E = Ok F →
  written_from P (may_write insn) E F.
Proof.
  intros Hrc HE.
  pose proof (update_return_object_writes P insn E F Hrc) as Hgen.
  pose proof (default_semantics_writes P insn E) as Hdef.
  unfold analyze_instruction.
  destruct (opcode insn) eqn:Hop;
    try (intros [= <-]; by first [apply written_same|apply Hdef]);
    try done.
  - (* move-object *)
    destruct (dest insn) as [d|] eqn:Hd; [simpl|done].
    destruct (src insn 0) as [s|]; [simpl|done].
    intros [= <-]. apply written_set_here;
      [by apply may_write_dest, dest_inv|by apply admitted_get].
  - (* move-result-pseudo-object *)
    destruct (dest insn) as [d|] eqn:Hd; [simpl|done].
    intros [= <-]. apply written_set_here;
      [by apply may_write_dest, dest_inv|by apply admitted_get].
  - (* move-result-object *)
    destruct (dest insn) as [d|] eqn:Hd; [simpl|done].
    intros [= <-]. apply written_set_here;
      [by apply may_write_dest, dest_inv|by apply admitted_get].
  - (* const-string *)
    destruct (insn_get_string insn); [simpl|done].
    intros [= <-]. apply written_set_here; [apply may_write_result|].
    apply (rc_string _ _ Hrc).
  - (* const-class *)
    destruct (get_type insn); [simpl|done].
    intros [= <-]. apply written_set_here; [apply may_write_result|].
    by apply (rc_const_class _ _ Hrc).
  - (* check-cast *)
    destruct (src insn 0) as [s|]; [simpl|done].
    intros [= <-]. apply written_set_here;
      [apply may_write_result|by apply admitted_get].
  - (* aget-object *)
    destruct (src insn 0) as [s|]; [simpl|done].
    destruct (get_constant (env_get s E)) as [a|];
      [|intros [= <-]; apply Hdef].
    destruct (dex_type a) as [t|]; [|intros [= <-]; apply Hdef].
    destruct (is_array t); [|intros [= <-]; apply Hdef].
    by apply update_non_string_input_writes.
  - (* iget-object *)
    destruct (get_field insn); [simpl|done].
    by apply update_non_string_input_writes.
  - (* sget-object *)
    destruct (get_field insn); [simpl|done].
    by apply update_non_string_input_writes.
  - (* new-instance *)
    destruct (get_type insn); [simpl|done].
    intros [= <-]. apply written_set_here; [apply may_write_result|].
    apply (rc_object _ _ Hrc).
  - (* new-array *)
    destruct (get_type insn); [simpl|done].
    intros [= <-]. apply written_set_here; [apply may_write_result|].
    apply (rc_object _ _ Hrc).
  - (* filled-new-array *)
    destruct (get_type insn); [simpl|done].
    intros [= <-]. apply written_set_here; [apply may_write_result|].
    apply (rc_object _ _ Hrc).
  - (* invoke-virtual *)
    destruct (src insn 0) as [s|]; [cbn [mbind result_bind]|done].
    destruct (env_get s E) as [|receiver|] eqn:Hs; simpl; [done| |done].
    apply process_virtual_call_writes; [done..|]. by apply (HE s).
  - (* invoke-static *)
    destruct (get_method insn) as [callee|] eqn:Hm; [simpl|done].
    case_bool_decide as Hfor; [|done].
    destruct (src insn 0) as [s|]; [simpl|done].
    destruct (get_constant (env_get s E)) as [class_name|]; [|done].
    destruct (bool_decide (kind class_name = STRING)); [|done].
    destruct (dex_string class_name); [|done].
    intros [= <-]. apply written_set_here; [apply may_write_result|].
    apply (rc_reflection _ _ Hrc).
    unfold models_reflection. rewrite Hop. unfold get_method in Hm.
    destruct (operand insn); try done.
    injection Hm as ->. by rewrite bool_decide_true.
Qed.

Lemma rule_closed_any insn : rule_closed (λ _, True) insn.
Proof. by split. Qed.

Lemma env_all_any E : env_all (λ _, True) E.
Proof. by intros r a. Qed.

Lemma rule_closed_analysis_object insn : rule_closed analysis_object insn.
Proof.
  split; try done.
  intros _. split; [by intros t; split|]. split.
  - intros k t n [-> | ->]; by split.
  - intros a [_ Ha] Hk. split; [done|].
    unfold sound_object in *. simpl.
    destruct Hk as [Hk|Hk]; rewrite Hk in Ha; apply Ha.
Qed.

Lemma rule_closed_not_reflection_output insn :
  models_reflection insn = false → opcode insn ≠ OPCODE_CONST_CLASS →
  rule_closed not_reflection_output insn.
Proof. intros Hm Hop. split; try done. by rewrite Hm. Qed.

(** X5: an instruction only changes the registers of its footprint:
    every register other than [RESULT_REGISTER], its destination and
    the upper half of a wide destination reads after the transfer what
    it read before. *)
Theorem analyze_instruction_frame pool insn E F r :
  analyze_instruction pool insn E = Ok F → may_write insn r = false →
  env_get r F = env_get r E.
Proof.
  intros HF Hr.
  apply (written_from_frame (λ _, True) (may_write insn)); [|done].
  eapply analyze_instruction_writes;
    eauto using rule_closed_any, env_all_any.
Qed.

Lemma analyze_instruction_frame_witness :
  let insn := Scenario.invoke OPCODE_INVOKE_VIRTUAL m_get_class [0] in
  let E := env_set 0 (Constant (plain_object (Some "LFoo;"))) env_top in
  env_get 0 (env_set RESULT_REGISTER
               (Constant (class_object (Some "LFoo;") REFLECTION)) E)
  = env_get 0 E.
Proof.
  intros insn E.
  apply (analyze_instruction_frame Scenario.pool insn E); reflexivity.
Defined.

(** X6: the transfer neither revives an unreachable state nor kills a
    reachable one: the environment after it is bottom exactly when the
    one before is. *)
Theorem analyze_instruction_reachability pool insn E F :
  analyze_instruction pool insn E = Ok F → is_bottom F = is_bottom E.
Proof.
  intros HF.
  apply (written_from_bottom (λ _, True) (may_write insn)).
  eapply analyze_instruction_writes;
    eauto using rule_closed_any, env_all_any.
Qed.

Lemma analyze_instruction_reachability_witness :
  is_bottom EnvBottom = is_bottom EnvBottom
  ∧ is_bottom (env_set RESULT_REGISTER
                 (Constant (string_object (Some "doIt"))) env_top)
    = is_bottom env_top.
Proof.
  split.
  - apply (analyze_instruction_reachability Scenario.pool
             (Scenario.invoke OPCODE_INVOKE_STATIC m_for_name [0])
             EnvBottom EnvBottom).
    reflexivity.
  - apply (analyze_instruction_reachability Scenario.pool
             (Scenario.const_string "doIt") env_top).
    reflexivity.
Defined.

(** X7: the transfer keeps the invariant of the analysis objects: when
    every constant of the environment is built by a constructor, with
    its string for a string object, a determinate source for a class
    object, and type and name for a field or method object, the same
    holds after the transfer, and every constant prints without
    tripping the assertion of [operator<<]. *)
Theorem analyze_instruction_keeps_objects_sound pool insn E F :
  env_all analysis_object E →
  analyze_instruction pool insn E = Ok F →
  env_all analysis_object F
  ∧ env_all (λ a, ∃ text, show a = Ok text) F.
Proof.
  intros HE HF.
  assert (env_all analysis_object F) as Hall.
  { apply (written_from_all analysis_object (may_write insn) E); [|done].
    eapply analyze_instruction_writes;
      eauto using rule_closed_analysis_object. }
  split; [done|].
  intros r a Ha. apply show_faults. by apply (Hall r a).
Qed.

Lemma env_all_top P : env_all P env_top.
Proof. intros r a. unfold env_top. simpl. by rewrite lookup_empty. Qed.

Lemma analyze_instruction_keeps_objects_sound_witness :
  env_all analysis_object
    (env_set RESULT_REGISTER
       (Constant (class_object (Some "LBaz;") REFLECTION)) env_top).
Proof.
  apply (analyze_instruction_keeps_objects_sound Scenario.pool
           (Scenario.const_class "LBaz;") env_top).
  - apply env_all_top.
  - reflexivity.
Defined.

(** X8: reflection outputs enter an environment through [const-class]
    and the modelled reflection calls only: on any other instruction,
    if no register holds a reflection output before the transfer, none
    does after it. *)
Theorem reflection_output_only_from_rules pool insn E F :
  models_reflection insn = false → opcode insn ≠ OPCODE_CONST_CLASS →
  env_all not_reflection_output E →
  analyze_instruction pool insn E = Ok F →
  env_all not_reflection_output F.
Proof.
  intros Hm Hop HE HF.
  apply (written_from_all not_reflection_output (may_write insn) E); [|done].
  eapply analyze_instruction_writes;
    eauto using rule_closed_not_reflection_output.
Qed.

Lemma reflection_output_only_from_rules_witness :
  env_all not_reflection_output
    (env_set RESULT_REGISTER
       (Constant (class_object None NON_REFLECTION)) env_top).
Proof.
  apply (reflection_output_only_from_rules Scenario.pool
           (Scenario.invoke OPCODE_INVOKE_INTERFACE m_for_name [0]) env_top).
  - reflexivity.
  - discriminate.
  - apply env_all_top.
  - reflexivity.
Defined.

End Footprint.

(** ** Reflection rules of virtual calls *)

Section VirtualCalls.

Import Analyzer Spec Invariant.

Implicit Types (pool : gset string) (insn : IRInstruction).
Implicit Types (E F : AbstractObjectEnvironment).

Lemma get_dex_string_from_insn_some E insn i name :
  get_dex_string_from_insn E insn i = Ok (Some name) →
  ∃ r nm, src insn i = Ok r ∧ env_get r E = Constant nm
          ∧ kind nm = STRING ∧ dex_string nm = Some name.
Proof.
  unfold get_dex_string_from_insn.
  destruct (src insn i) as [r|]; [simpl|done].
  destruct (env_get r E) as [|nm|] eqn:Hr; simpl; [done| |done].
  case_bool_decide; [|done]. intros [= Hs]. eauto 10.
Qed.

Lemma generic_binding_no_member E F insn c :
  update_return_object E insn = Ok F →
  env_get RESULT_REGISTER F = Constant c →
  kind c = FIELD ∨ kind c = METHOD →
  env_get RESULT_REGISTER E = Constant c.
Proof.
  unfold update_return_object, update_non_string_input.
  destruct (get_method insn) as [callee|]; [simpl|done].
  destruct (_ || _); [by intros [= <-]|].
  destruct (if has_move_result insn then _ else _) as [dest_reg|];
    [simpl|done].
  case_bool_decide; intros [= <-]; rewrite env_get_set;
    destruct (is_bottom E); try done;
    case_bool_decide; try done;
    intros [= <-]; simpl; intros [?|?]; done.
Qed.

Lemma env_get_result_written E d c :
  env_get RESULT_REGISTER (env_set RESULT_REGISTER d E) = Constant c →
  d = Constant c.
Proof.
  rewrite env_get_set. destruct (is_bottom E); [done|].
  destruct d; [done| |]; by rewrite bool_decide_true.
Qed.

(** X9: a virtual call leaves a field or method object in the result
    register only through a lookup on a class receiver: unless the
    register already held that object and the call left it alone, the
    receiver is a class constant and the callee is either one of the
    four constructor lookups, and the name is the constructor token, or
    one of the four named lookups, and the name is the string constant
    of the second source register. *)
Theorem member_only_from_class_lookup pool insn E F c :
  opcode insn = OPCODE_INVOKE_VIRTUAL →
  analyze_instruction pool insn E = Ok F →
  env_get RESULT_REGISTER F = Constant c →
  kind c = FIELD ∨ kind c = METHOD →
  env_get RESULT_REGISTER E = Constant c
  ∨ ∃ s receiver callee name,
      src insn 0 = Ok s ∧ env_get s E = Constant receiver
      ∧ kind receiver = CLASS ∧ get_method insn = Ok callee
      ∧ dex_string c = Some name
      ∧ ((callee ∈ m_ctor_lookup_vmethods ∧ name = "<init>")
         ∨ (callee ∈ [m_get_method; m_get_declared_method;
                      m_get_field; m_get_declared_field]
            ∧ ∃ r nm, src insn 1 = Ok r ∧ env_get r E = Constant nm
                      ∧ kind nm = STRING ∧ dex_string nm = Some name)).
Proof.
  intros Hop. unfold analyze_instruction. rewrite Hop.
  destruct (src insn 0) as [s|] eqn:Hs; [cbn [mbind result_bind]|done].
  destruct (env_get s E) as [|receiver|] eqn:Hrecv; simpl;
    try (intros HF Hc Hk; left; by eapply generic_binding_no_member).
  unfold process_virtual_call.
  destruct (get_method insn) as [callee|] eqn:Hm; [simpl|done].
  pose proof (generic_binding_no_member E F insn c) as Hgen.
  destruct (kind receiver) eqn:Hkr.
  - case_bool_decide; [|by auto].
    intros [= <-] Hc%env_get_result_written Hk.
    injection Hc as <-. by destruct Hk.
  - case_bool_decide; [|by auto].
    intros [= <-] Hc%env_get_result_written Hk.
    injection Hc as <-. by destruct Hk.
  - destruct (class_element pool E insn callee) as [[k [name|]]|] eqn:Hel;
      simpl; [|by auto|done].
    intros [= <-] Hc%env_get_result_written _. injection Hc as <-.
    right. exists s, receiver, callee, name.
    repeat split; try done.
    unfold class_element in Hel.
    destruct (bool_decide (callee = m_get_method)
              || bool_decide (callee = m_get_declared_method)) eqn:Hmeth.
    { right. split.
      - apply orb_true_iff in Hmeth as [?%bool_decide_eq_true
                                        | ?%bool_decide_eq_true];
          subst; set_solver.
      - destruct (get_dex_string_from_insn E insn 1) as [o|] eqn:Hname;
          [|done].
        simpl in Hel. injection Hel as _ ->.
        by apply get_dex_string_from_insn_some. }
    case_bool_decide as Hctor.
    { left. split; [done|]. injection Hel as _ Hinit.
      unfold get_string in Hinit. case_bool_decide; by simplify_eq. }
    destruct (bool_decide (callee = m_get_field)
              || bool_decide (callee = m_get_declared_field)) eqn:Hfield;
      [|done].
    right. split.
    + apply orb_true_iff in Hfield as [?%bool_decide_eq_true
                                       | ?%bool_decide_eq_true];
        subst; set_solver.
    + destruct (get_dex_string_from_insn E insn 1) as [o|] eqn:Hname;
        [|done].
      simpl in Hel. injection Hel as _ ->.
      by apply get_dex_string_from_insn_some.
  - destruct (_ || _); [|by auto].
    intros [= <-] Hc%env_get_result_written Hk.
    injection Hc as <-. by destruct Hk.
  - destruct (_ || _); [|by auto].
    intros [= <-] Hc%env_get_result_written Hk.
    injection Hc as <-. by destruct Hk.
Qed.

Lemma member_only_from_class_lookup_witness :
  let insn :=
    Scenario.invoke OPCODE_INVOKE_VIRTUAL m_get_declared_field [0; 1] in
  let E :=
    env_set 1 (Constant (string_object (Some "count")))
      (env_set 0 (Constant (class_object (Some "LBar;") REFLECTION))
         env_top) in
  let c := member_object FIELD (Some "Ljava/lang/Class;") (Some "count") in
  env_get RESULT_REGISTER E = Constant c
  ∨ ∃ s receiver callee name,
      src insn 0 = Ok s ∧ env_get s E = Constant receiver
      ∧ kind receiver = CLASS ∧ get_method insn = Ok callee
      ∧ dex_string c = Some name
      ∧ ((callee ∈ m_ctor_lookup_vmethods ∧ name = "<init>")
         ∨ (callee ∈ [m_get_method; m_get_declared_method;
                      m_get_field; m_get_declared_field]
            ∧ ∃ r nm, src insn 1 = Ok r ∧ env_get r E = Constant nm
                      ∧ kind nm = STRING ∧ dex_string nm = Some name)).
Proof.
  intros insn E c.
  apply (member_only_from_class_lookup Scenario.pool insn E
           (env_set RESULT_REGISTER (Constant c) E) c);
    [reflexivity|reflexivity|reflexivity|by left].
Defined.

(** X10: a lookup by name followed by [getName] gives the name back:
    after [getField], [getDeclaredField], [getMethod] or
    [getDeclaredMethod] on a class constant with a string constant as
    name, a [move-result-object] and [getName] on the moved handle, the
    result register holds the string constant of that name. *)
Theorem lookup_then_get_name pool E r0 r1 rest d receiver nm name
    lookup getter :
  env_get r0 E = Constant receiver → kind receiver = CLASS →
  env_get r1 E = Constant nm → kind nm = STRING →
  dex_string nm = Some name →
  (lookup, getter) ∈ [ (m_get_field, m_get_field_name);
                       (m_get_declared_field, m_get_field_name);
                       (m_get_method, m_get_method_name);
                       (m_get_declared_method, m_get_method_name) ] →
  (F ← Scenario.transfer_all pool
         [ Scenario.invoke OPCODE_INVOKE_VIRTUAL lookup (r0 :: r1 :: rest);
           Scenario.move_result_object d;
           Scenario.invoke OPCODE_INVOKE_VIRTUAL getter [d] ] E;
   Ok (env_get RESULT_REGISTER F))
  = Ok (Constant (string_object (Some name))).
Proof.
  intros Hr0 Hk0 Hr1 Hk1 Hname Hpair.
  assert (is_bottom E = false) as Hb by (by destruct E).
  assert (∃ k, (k = FIELD ∧ getter = m_get_field_name
                ∨ k = METHOD ∧ getter = m_get_method_name)
               ∧ analyze_instruction pool
                   (Scenario.invoke OPCODE_INVOKE_VIRTUAL lookup
                      (r0 :: r1 :: rest)) E
                 = Ok (env_set RESULT_REGISTER
                         (Constant (member_object k
                                      (Some "Ljava/lang/Class;")
                                      (Some name))) E))
    as (k & Hk & Hstep1).
  { rewrite !elem_of_cons, elem_of_nil in Hpair.
    unfold analyze_instruction. simpl. rewrite Hr0. simpl.
    unfold process_virtual_call. simpl. rewrite Hk0.
    unfold class_element, get_dex_string_from_insn. simpl.
    rewrite Hr1. simpl.
    rewrite Hname, (bool_decide_true (kind nm = STRING)) by done.
    destruct Hpair as [[= -> ->]|[[= -> ->]|[[= -> ->]|[[= -> ->]|[]]]]];
      [exists FIELD|exists FIELD|exists METHOD|exists METHOD];
      (split; [auto|reflexivity]). }
  unfold Scenario.transfer_all. rewrite Hstep1.
  cbn [mbind result_bind].
  set (member := member_object k (Some "Ljava/lang/Class;") (Some name)).
  set (E1 := env_set RESULT_REGISTER (Constant member) E).
  assert (is_bottom E1 = false) as Hb1.
  { unfold E1. rewrite is_bottom_set, Hb. done. }
  assert (env_get RESULT_REGISTER E1 = Constant member) as Hres.
  { unfold E1. rewrite env_get_set, Hb. by rewrite bool_decide_true. }
  unfold analyze_instruction at 1. simpl. rewrite Hres.
  set (E2 := env_set d (Constant member) E1).
  assert (is_bottom E2 = false) as Hb2.
  { unfold E2. rewrite is_bottom_set, Hb1. done. }
  assert (env_get d E2 = Constant member) as Hd.
  { unfold E2. rewrite env_get_set, Hb1. by rewrite bool_decide_true. }
  unfold analyze_instruction. simpl. rewrite Hd. simpl.
  unfold process_virtual_call. simpl.
  destruct Hk as [[Hkk ->]|[Hkk ->]]; subst k; simpl;
    rewrite env_get_set, Hb2; by rewrite bool_decide_true.
Qed.

Lemma lookup_then_get_name_witness :
  (F ← Scenario.transfer_all Scenario.pool
         [ Scenario.invoke OPCODE_INVOKE_VIRTUAL m_get_declared_field [0; 1];
           Scenario.move_result_object 3;
           Scenario.invoke OPCODE_INVOKE_VIRTUAL m_get_field_name [3] ]
         (env_set 1 (Constant (string_object (Some "count")))
            (env_set 0 (Constant (class_object (Some "LBar;") REFLECTION))
               env_top));
   Ok (env_get RESULT_REGISTER F))
  = Ok (Constant (string_object (Some "count"))).
Proof.
  apply (lookup_then_get_name Scenario.pool _ 0 1 [] 3
           (class_object (Some "LBar;") REFLECTION)
           (string_object (Some "count")) "count");
    try reflexivity.
  set_solver.
Defined.

End VirtualCalls.

(** ** Further properties of the seeding *)

Section SeedingFacts.

Import Analyzer Spec Invariant.

Implicit Types (dex_method : DexMethod) (insn : IRInstruction).
Implicit Types (E F : AbstractObjectEnvironment).

Lemma seed_parameters_param_run dex_method entry first sig E :
  seed_parameters dex_method entry first sig E
  = seed_parameters dex_method (param_run entry) first sig E.
Proof.
  revert first sig E.
  induction entry as [|insn rest IH]; intros first sig E; [done|].
  simpl. destruct (is_load_param (opcode insn)) eqn:Hlp; simpl;
    destruct (opcode insn); try done; try apply IH.
  destruct (first && negb (is_static dex_method)).
  - destruct (update_non_string_input E insn (get_class dex_method));
      [simpl; apply IH|done].
  - destruct sig as [|type sig_next]; [done|].
    destruct (update_non_string_input E insn type); [simpl; apply IH|done].
Qed.

(** X11: the seeded state depends on the leading run of parameter
    pseudo-instructions only: whatever follows the first other opcode
    of the entry block, further parameter loads included, does not
    change it. *)
Theorem initial_state_reads_param_run dex_method entry :
  initial_state dex_method entry
  = initial_state dex_method (param_run entry).
Proof. apply seed_parameters_param_run. Qed.

Lemma load_param_rule_closed_objects insn :
  is_load_param (opcode insn) = true →
  rule_closed analysis_object insn
  ∧ rule_closed not_reflection_output insn.
Proof.
  intros Hop. split; [apply rule_closed_analysis_object|].
  apply rule_closed_not_reflection_output.
  - unfold models_reflection. by destruct (opcode insn).
  - by destruct (opcode insn).
Qed.

Lemma seed_parameters_keeps P dex_method entry first sig E F :
  (∀ insn, is_load_param (opcode insn) = true → rule_closed P insn) →
  seed_parameters dex_method entry first sig E = Ok F →
  env_all P E → env_all P F ∧ is_bottom F = is_bottom E.
Proof.
  intros Hrc. revert first sig E.
  induction entry as [|insn rest IH]; intros first sig E;
    [by intros [= <-]|].
  simpl.
  assert (∀ T E1,
            is_load_param (opcode insn) = true →
            update_non_string_input E insn T = Ok E1 → env_all P E →
            env_all P E1 ∧ is_bottom E1 = is_bottom E) as Hstep.
  { intros T E1 Hop HE1 HE.
    pose proof (update_non_string_input_writes P insn T E E1 (Hrc _ Hop) HE1).
    eauto using written_from_all, written_from_bottom. }
  assert (env_all P E →
          env_all P (default_semantics insn E)
          ∧ is_bottom (default_semantics insn E) = is_bottom E) as Hdef.
  { intros HE. pose proof (default_semantics_writes P insn E).
    eauto using written_from_all, written_from_bottom. }
  destruct (opcode insn) eqn:Hop; try (by intros [= <-]).
  - intros HF HE. destruct (Hdef HE) as [H1 H2].
    destruct (IH _ _ _ HF H1) as [H3 H4]. split; [done|congruence].
  - destruct (first && negb (is_static dex_method)).
    + destruct (update_non_string_input E insn (get_class dex_method))
        as [E1|] eqn:HE1; [simpl|done].
      intros HF HE. destruct (Hstep _ _ eq_refl HE1 HE) as [H1 H2].
      destruct (IH _ _ _ HF H1) as [H3 H4]. split; [done|congruence].
    + destruct sig as [|type sig_next]; [done|].
      destruct (update_non_string_input E insn type) as [E1|] eqn:HE1;
        [simpl|done].
      intros HF HE. destruct (Hstep _ _ eq_refl HE1 HE) as [H1 H2].
      destruct (IH _ _ _ HF H1) as [H3 H4]. split; [done|congruence].
  - intros HF HE. destruct (Hdef HE) as [H1 H2].
    destruct (IH _ _ _ HF H1) as [H3 H4]. split; [done|congruence].
Qed.

(** X12: a seeded entry state is reachable, holds only objects the
    constructors build in their sound form, and holds no reflection
    output: parameters alone are never reported as reflection sites. *)
Theorem initial_state_sound dex_method entry E :
  initial_state dex_method entry = Ok E →
  is_bottom E = false
  ∧ env_all analysis_object E
  ∧ env_all not_reflection_output E.
Proof.
  unfold initial_state. intros HE.
  destruct (seed_parameters_keeps analysis_object _ _ _ _ _ _
              (λ insn Hop, proj1 (load_param_rule_closed_objects insn Hop))
              HE (env_all_top _)) as [H1 H2].
  destruct (seed_parameters_keeps not_reflection_output _ _ _ _ _ _
              (λ insn Hop, proj2 (load_param_rule_closed_objects insn Hop))
              HE (env_all_top _)) as [H3 _].
  done.
Qed.

Lemma initial_state_sound_witness :
  env_all not_reflection_output
    (EnvValue {[ 0 := plain_object (Some "LFoo;");
                 1 := class_object None NON_REFLECTION;
                 2 := plain_object (Some "Ljava/lang/String;") ]}).
Proof.
  apply (initial_state_sound Scenario.seeded_method Scenario.seeded_entry).
  by vm_compute.
Defined.

(** The types still available to the object loads: the rest of the
    signature, and [this] while it has not been taken. *)
Lemma seed_parameters_arity dex_method entry first sig E :
  Forall well_formed entry →
  match seed_parameters dex_method entry first sig E with
  | Ok _ =>
      (object_loads (param_run entry)
       ≤ List.length sig
         + (if first && negb (is_static dex_method) then 1 else 0))%nat
  | Abort f =>
      f = EndIteratorDereference
      ∧ (List.length sig
         + (if first && negb (is_static dex_method) then 1 else 0)
         < object_loads (param_run entry))%nat
  end.
Proof.
  intros Hwf. revert first sig E.
  induction Hwf as [|insn rest Hinsn _ IH]; intros first sig E;
    [simpl; lia|].
  simpl.
  destruct (opcode insn) eqn:Hop; simpl; try lia; rewrite Hop;
    rewrite ?(bool_decide_true (IOPCODE_LOAD_PARAM_OBJECT = _)) by done;
    rewrite ?(bool_decide_false (_ = IOPCODE_LOAD_PARAM_OBJECT)) by done.
  - specialize (IH first sig (default_semantics insn E)).
    destruct (seed_parameters _ _ _ _ _);
      [lia|destruct IH; split; [done|lia]].
  - destruct (load_param_writes_dest insn Hinsn) as (Hmr & d & Hd & _);
      [by rewrite Hop|].
    destruct (first && negb (is_static dex_method)) eqn:Hthis.
    + rewrite (update_non_string_input_param _ _ d) by done. simpl.
      specialize (IH false sig
                    (bind_parameter E d (get_class dex_method))).
      simpl in IH.
      destruct (seed_parameters _ _ _ _ _);
      [lia|destruct IH; split; [done|lia]].
    + destruct sig as [|type sig_next]; [simpl; split; [done|lia]|].
      rewrite (update_non_string_input_param _ _ d) by done. simpl.
      specialize (IH first sig_next (bind_parameter E d type)).
      rewrite Hthis in IH.
      destruct (seed_parameters _ _ _ _ _);
      [lia|destruct IH; split; [done|lia]].
  - specialize (IH first sig (default_semantics insn E)).
    destruct (seed_parameters _ _ _ _ _);
      [lia|destruct IH; split; [done|lia]].
Qed.

(** X13: on a well-formed entry block the seeding fails exactly when
    the object loads of the parameter run outnumber the types there
    are for them, the argument types and [this] for a non-static
    method.  The fault is then the read of [*sig_it] with the iterator
    at the end of the signature, which comes before the arity
    assertion; the seeding fails in no other way. *)
Theorem initial_state_arity dex_method entry :
  Forall well_formed entry →
  let available :=
    (List.length (signature dex_method)
     + (if is_static dex_method then 0 else 1))%nat in
  (initial_state dex_method entry = Abort EndIteratorDereference
   ↔ (available < object_loads (param_run entry))%nat)
  ∧ (∀ f, initial_state dex_method entry = Abort f →
          f = EndIteratorDereference)
  ∧ ((object_loads (param_run entry) ≤ available)%nat
     ↔ ∃ E, initial_state dex_method entry = Ok E).
Proof.
  intros Hwf available. unfold initial_state.
  pose proof (seed_parameters_arity dex_method entry true
                (signature dex_method) env_top Hwf) as H.
  assert ((if true && negb (is_static dex_method) then 1 else 0)%nat
          = (if is_static dex_method then 0 else 1)%nat) as Heq
    by by destruct (is_static dex_method).
  rewrite Heq in H. fold available in H.
  destruct (seed_parameters _ _ _ _ _) as [E|f].
  - split; [|split].
    + split; [done|]. intros Hlt. lia.
    + done.
    + split; [eauto|]. intros _. exact H.
  - destruct H as [-> H]. split; [|split].
    + split; [intros _; exact H|done].
    + by intros f [= <-].
    + split; [intros Hle; lia|by intros [E ?]].
Qed.

Lemma initial_state_arity_witness :
  initial_state
    (mkMethod (make_method "LFoo;" "bar" ["Ljava/lang/String;"] "V")
       true None)
    [ Scenario.load_param IOPCODE_LOAD_PARAM_OBJECT 0 false;
      Scenario.load_param IOPCODE_LOAD_PARAM_OBJECT 1 false ]
  = Abort EndIteratorDereference.
Proof.
  apply (initial_state_arity
           (mkMethod (make_method "LFoo;" "bar" ["Ljava/lang/String;"] "V")
              true None)
           [ Scenario.load_param IOPCODE_LOAD_PARAM_OBJECT 0 false;
             Scenario.load_param IOPCODE_LOAD_PARAM_OBJECT 1 false ]).
  - repeat apply Forall_cons_2; try apply Forall_nil_2;
      (split; simpl;
       [ done | done
       | intros d [= <-]; by vm_compute
       | intros s Hs; by apply elem_of_nil in Hs ]).
  - simpl. lia.
Defined.

End SeedingFacts.

(** ** The replay cache *)

Section ReplayCache.

Import Analyzer Spec Invariant.

Implicit Types (pool : gset string) (insn : IRInstruction).
Implicit Types (s : AbstractObjectEnvironment).
Implicit Types (envs : gmap N AbstractObjectEnvironment).
Implicit Types (insns : list (N * IRInstruction)) (bs : list Block).

Lemma emplace_lookup ptr s envs p :
  emplace ptr s envs !! p
  = match envs !! p with
    | Some e => Some e
    | None => if bool_decide (p = ptr) then Some s else None
    end.
Proof.
  unfold emplace. destruct (envs !! ptr) as [e|] eqn:Hptr.
  - destruct (envs !! p) eqn:Hp; [done|].
    case_bool_decide; [congruence|done].
  - case_bool_decide as Hpp.
    + subst. by rewrite lookup_insert_eq, Hptr.
    + rewrite lookup_insert_ne by done. by destruct (envs !! p).
Qed.

Lemma replay_block_cache pool insns s envs envs' :
  replay_block pool insns s envs = Ok envs' →
  (∀ p e, envs !! p = Some e → envs' !! p = Some e)
  ∧ (∀ p, is_Some (envs' !! p) ↔ is_Some (envs !! p) ∨ p ∈ pointers insns).
Proof.
  revert s envs.
  induction insns as [|[ptr insn] rest IH]; intros s envs.
  { intros [= <-]. split; [done|]. intros p. unfold pointers. simpl.
    rewrite elem_of_nil. tauto. }
  simpl.
  destruct (analyze_instruction pool insn s) as [s'|]; [simpl|done].
  intros Hrest. destruct (IH _ _ Hrest) as [Hkeep Hdom]. split.
  - intros p e Hp. apply Hkeep. by rewrite emplace_lookup, Hp.
  - intros p. rewrite Hdom, emplace_lookup. unfold pointers. simpl.
    rewrite elem_of_cons.
    destruct (envs !! p) as [e|]; [split; intros _; left; eauto|].
    case_bool_decide as Hp.
    + split; [intros _; right; by left|intros _; left; eauto].
    + split.
      * intros [[? [=]]|Hin]. right. by right.
      * intros [[? [=]]|[Heq|Hin]]; [done|by right].
Qed.

(** The snapshot taken for an instruction met for the first time is
    the state the transfer of the instructions before it leads to. *)
Lemma replay_block_snapshot pool insns s envs envs' k ptr insn :
  replay_block pool insns s envs = Ok envs' →
  insns !! k = Some (ptr, insn) →
  envs !! ptr = None → ptr ∉ pointers (take k insns) →
  ∃ sk, Scenario.transfer_all pool (snd <$> take k insns) s = Ok sk
        ∧ envs' !! ptr = Some sk.
Proof.
  revert s envs k.
  induction insns as [|[p0 i0] rest IH]; intros s envs k; [done|].
  simpl.
  destruct (analyze_instruction pool i0 s) as [s'|] eqn:Hstep; [simpl|done].
  intros Hrest Hk Hnew Hfresh.
  destruct k as [|k]; simpl in *.
  - injection Hk as -> ->. exists s. split; [done|].
    apply (replay_block_cache _ _ _ _ _ Hrest).
    by rewrite emplace_lookup, Hnew, bool_decide_true.
  - unfold pointers in Hfresh. simpl in Hfresh.
    apply not_elem_of_cons in Hfresh as [Hne Hfresh].
    rewrite Hstep. simpl.
    apply (IH s' (emplace p0 s envs) k); try done.
    by rewrite emplace_lookup, Hnew, bool_decide_false.
Qed.

Lemma populate_blocks_cache pool st bs envs envs' :
  populate_blocks pool st bs envs = Ok envs' →
  (∀ p e, envs !! p = Some e → envs' !! p = Some e)
  ∧ (∀ p, is_Some (envs' !! p)
          ↔ is_Some (envs !! p) ∨ p ∈ blocks_pointers bs).
Proof.
  revert envs. induction bs as [|b rest IH]; intros envs.
  { intros [= <-]. split; [done|]. intros p. unfold blocks_pointers.
    simpl. rewrite elem_of_nil. tauto. }
  simpl.
  destruct (replay_block pool (block_insns b) (st (block_id b)) envs)
    as [envs1|] eqn:Hb; [simpl|done].
  intros Hrest.
  destruct (replay_block_cache _ _ _ _ _ Hb) as [Hkeep1 Hdom1].
  destruct (IH _ Hrest) as [Hkeep Hdom]. split; [by auto|].
  intros p. rewrite Hdom, Hdom1. unfold blocks_pointers. simpl.
  rewrite elem_of_app. tauto.
Qed.

(** X14: after a successful run the cache has an entry for exactly the
    instructions of the blocks of the graph; a query for any other
    instruction address answers [None] for every register. *)
Theorem run_caches_block_instructions pool engine dex_method g a :
  run pool engine dex_method g = Ok a →
  ∀ ptr,
    (is_Some (get_abstract_object_env a ptr)
     ↔ ptr ∈ blocks_pointers (blocks g))
    ∧ (ptr ∉ blocks_pointers (blocks g) →
       ∀ reg, get_abstract_object a reg ptr = None).
Proof.
  unfold run, populate_environments.
  destruct (initial_state _ _) as [init|]; [simpl|done].
  destruct (engine g init) as [st|]; [simpl|done].
  destruct (populate_blocks pool st (blocks g) ∅) as [envs|] eqn:Hpop;
    [simpl|done].
  intros [= <-] ptr.
  destruct (populate_blocks_cache _ _ _ _ _ Hpop) as [_ Hdom].
  assert (is_Some (envs !! ptr) ↔ ptr ∈ blocks_pointers (blocks g)) as Hptr.
  { rewrite Hdom, lookup_empty. split; [|by auto].
    intros [H|H]; [by destruct H|done]. }
  split; [done|].
  intros Hnot reg. unfold get_abstract_object. simpl.
  destruct (envs !! ptr) eqn:Hp; [|done].
  destruct Hnot. apply Hptr. eauto.
Qed.

Lemma populate_blocks_snapshot pool st bs envs envs' b k ptr insn :
  populate_blocks pool st bs envs = Ok envs' →
  NoDup (blocks_pointers bs) →
  (∀ p, p ∈ blocks_pointers bs → envs !! p = None) →
  b ∈ bs → block_insns b !! k = Some (ptr, insn) →
  ∃ sk, Scenario.transfer_all pool (snd <$> take k (block_insns b))
          (st (block_id b)) = Ok sk
        ∧ envs' !! ptr = Some sk.
Proof.
  revert envs. induction bs as [|b0 rest IH]; intros envs;
    [by intros _ _ _ ?%elem_of_nil|].
  simpl.
  destruct (replay_block pool (block_insns b0) (st (block_id b0)) envs)
    as [envs1|] eqn:Hb; [simpl|done].
  intros Hrest Hnodup Hfresh Hin Hk.
  unfold blocks_pointers in Hnodup, Hfresh. simpl in Hnodup, Hfresh.
  apply NoDup_app in Hnodup as (Hnd0 & Hdisj & Hndrest).
  destruct (replay_block_cache _ _ _ _ _ Hb) as [Hkeep1 Hdom1].
  destruct (populate_blocks_cache _ _ _ _ _ Hrest) as [Hkeep _].
  apply elem_of_cons in Hin as [->|Hin].
  - assert (ptr ∈ pointers (block_insns b0)) as Hptr.
    { unfold pointers. apply list_elem_of_fmap. exists (ptr, insn).
      split; [done|]. by apply list_elem_of_lookup_2 in Hk. }
    destruct (replay_block_snapshot _ _ _ _ _ k ptr insn Hb Hk)
      as (sk & Hsk & Hcached).
    + apply Hfresh. apply elem_of_app. by left.
    + intros Hearlier. unfold pointers in Hearlier, Hnd0.
      rewrite <- (take_drop k (block_insns b0)), fmap_app in Hnd0.
      apply NoDup_app in Hnd0 as (_ & Hsep & _).
      apply (Hsep ptr Hearlier).
      apply list_elem_of_fmap. exists (ptr, insn). split; [done|].
      apply (list_elem_of_lookup_2 _ 0).
      by rewrite lookup_drop, Nat.add_0_r.
    + exists sk. split; [done|]. by apply Hkeep.
  - apply (IH envs1); try done.
    intros p Hp.
    destruct (envs1 !! p) eqn:Hc; [|done].
    assert (is_Some (envs1 !! p)) as Hsome by eauto.
    apply Hdom1 in Hsome as [Hold|Hhere].
    + rewrite Hfresh in Hold; [by destruct Hold|].
      apply elem_of_app. by right.
    + by destruct (Hdisj p Hhere).
Qed.

(** X15: the replay caches for every instruction the state before it:
    when the instruction addresses of the graph are pairwise distinct,
    the environment cached for the instruction at index [k] of a block
    is the transfer of the first [k] instructions of the block from the
    entry state of the block. *)
Theorem populate_environments_snapshot pool st g envs b k ptr insn :
  populate_environments pool st g = Ok envs →
  NoDup (blocks_pointers (blocks g)) →
  b ∈ blocks g → block_insns b !! k = Some (ptr, insn) →
  ∃ sk, Scenario.transfer_all pool (snd <$> take k (block_insns b))
          (st (block_id b)) = Ok sk
        ∧ envs !! ptr = Some sk.
Proof.
  intros Hpop Hnodup. apply (populate_blocks_snapshot _ _ _ ∅); try done.
Qed.

Lemma populate_blocks_all P pool st bs envs envs' :
  (∀ insn, rule_closed P insn) → (∀ id, env_all P (st id)) →
  populate_blocks pool st bs envs = Ok envs' →
  (∀ p s, envs !! p = Some s → env_all P s) →
  ∀ p s, envs' !! p = Some s → env_all P s.
Proof.
  intros Hrc Hst. revert envs.
  assert (∀ insns s envs envs1,
            replay_block pool insns s envs = Ok envs1 → env_all P s →
            (∀ p e, envs !! p = Some e → env_all P e) →
            ∀ p e, envs1 !! p = Some e → env_all P e) as Hblock.
  { induction insns as [|[ptr insn] rest IH]; intros s envs envs1;
      [by intros [= <-]|].
    simpl.
    destruct (analyze_instruction pool insn s) as [s'|] eqn:Hstep;
      [simpl|done].
    intros Hrest Hs Hold. apply (IH _ _ _ Hrest).
    - apply (written_from_all P (may_write insn) s); [|done].
      by apply (analyze_instruction_writes P pool).
    - intros p e. rewrite emplace_lookup.
      destruct (envs !! p) eqn:Hp; [intros [= <-]; by eapply Hold|].
      case_bool_decide; [by intros [= <-]|done]. }
  induction bs as [|b rest IH]; intros envs; [by intros [= <-]|].
  simpl.
  destruct (replay_block pool (block_insns b) (st (block_id b)) envs)
    as [envs1|] eqn:Hb; [simpl|done].
  intros Hrest Hold. apply (IH _ Hrest). by eapply Hblock.
Qed.

(** X16: when the entry states the fixpoint engine hands out hold
    sound analysis objects, so does every cached environment: every
    object a query answers is sound and prints without a fault. *)
Theorem cached_objects_sound pool st g envs reg ptr obj :
  (∀ id, env_all analysis_object (st id)) →
  populate_environments pool st g = Ok envs →
  get_abstract_object (mkAnalyzer envs) reg ptr = Some obj →
  analysis_object obj ∧ ∃ text, show obj = Ok text.
Proof.
  intros Hst Hpop. unfold get_abstract_object. simpl.
  destruct (envs !! ptr) as [s|] eqn:Hs; [|done].
  intros Hget.
  assert (analysis_object obj) as Hobj.
  { apply (populate_blocks_all analysis_object pool st (blocks g) ∅ envs
             rule_closed_analysis_object Hst Hpop) with (p := ptr) (s := s)
             (r := to_register reg); try done.
    destruct (env_get (to_register reg) s); simpl in Hget; by simplify_eq. }
  split; [done|]. apply show_faults, Hobj.
Qed.

Lemma run_caches_block_instructions_witness :
  (a ← run Scenario.pool straight_line_engine chain_method chain_cfg;
   Ok (get_abstract_object a 1 99))
  = Ok None.
Proof.
  destruct (run Scenario.pool straight_line_engine chain_method chain_cfg)
    as [a|f] eqn:Hrun; [|by vm_compute in Hrun].
  simpl. f_equal.
  apply (run_caches_block_instructions _ _ _ _ a Hrun 99).
  apply (bool_decide_unpack _). by vm_compute.
Defined.

Lemma populate_environments_snapshot_witness :
  (envs ← populate_environments Scenario.pool (λ _, env_top) chain_cfg;
   Ok (envs !! 12))
  = (sk ← Scenario.transfer_all Scenario.pool
            (snd <$> take 2 (block_insns chain_block)) env_top;
     Ok (Some sk)).
Proof.
  destruct (populate_environments Scenario.pool (λ _, env_top) chain_cfg)
    as [envs|f] eqn:Hpop; [|by vm_compute in Hpop].
  destruct (populate_environments_snapshot Scenario.pool (λ _, env_top)
              chain_cfg envs chain_block 2 12
              (Scenario.invoke OPCODE_INVOKE_STATIC m_for_name [0]) Hpop)
    as (sk & Hsk & Hcached).
  - apply (bool_decide_unpack _). by vm_compute.
  - by left.
  - reflexivity.
  - cbv beta in Hsk. rewrite Hsk. cbn [mbind result_bind].
    by rewrite Hcached.
Defined.

Lemma cached_objects_sound_witness :
  ∃ text, show (string_object (Some "com.foo.Bar")) = Ok text.
Proof.
  destruct (populate_environments Scenario.pool (λ _, env_top) chain_cfg)
    as [envs|f] eqn:Hpop; [|by vm_compute in Hpop].
  apply (cached_objects_sound Scenario.pool (λ _, env_top) chain_cfg envs
           0 12 (string_object (Some "com.foo.Bar"))
           (λ _, env_all_top _) Hpop).
  vm_compute in Hpop. injection Hpop as <-. reflexivity.
Defined.

End ReplayCache.

(** ** Reflection sites *)

Section ReflectionSites.

Import Analyzer Spec Invariant.

Implicit Types (ra : ReflectionAnalysis.t) (a : Analyzer.t).
Implicit Types (objs : gmap N AbstractObject).

Lemma get_reflection_site_spec ra a reg insn objs :
  ReflectionAnalysis.m_analyzer ra = Some a → consistent ra insn objs →
  ∃ objs',
    ReflectionAnalysis.get_reflection_site ra reg insn objs = Ok objs'
    ∧ consistent ra insn objs'
    ∧ ∀ k o, objs' !! k = Some o
             ↔ objs !! k = Some o
               ∨ (k = reg
                  ∧ ReflectionAnalysis.get_abstract_object ra k insn = Some o
                  ∧ is_reflection_output o = true).
Proof.
  intros Ha Hc.
  unfold ReflectionAnalysis.get_reflection_site, consistent,
    ReflectionAnalysis.get_abstract_object in *.
  rewrite Ha in *.
  destruct (get_abstract_object a reg insn) as [aobj|] eqn:Hq.
  - destruct (is_reflection_output aobj) eqn:Hout.
    + eexists. split; [done|]. split.
      * intros k o. destruct (decide (k = reg)) as [->|Hne].
        -- rewrite lookup_insert_eq. by intros [= <-].
        -- rewrite lookup_insert_ne by done. apply Hc.
      * intros k o. destruct (decide (k = reg)) as [->|Hne].
        -- rewrite lookup_insert_eq, Hq. split.
           ++ intros [= <-]. by right.
           ++ intros [Hold|(_ & Hnew & _)]; [|done].
              apply Hc in Hold as [Hold _]. congruence.
        -- rewrite lookup_insert_ne by done. naive_solver.
    + exists objs. split; [done|]. split; [done|].
      intros k o. split; [by left|].
      intros [?|(-> & Hnew & Hr)]; [done|]. congruence.
  - exists objs. split; [done|]. split; [done|].
    intros k o. split; [by left|].
    intros [?|(-> & Hnew & Hr)]; [done|]. congruence.
Qed.

Lemma collect_registers_spec ra a insn regs objs :
  ReflectionAnalysis.m_analyzer ra = Some a → consistent ra insn objs →
  ∃ objs',
    ReflectionAnalysis.collect_registers ra insn regs objs = Ok objs'
    ∧ consistent ra insn objs'
    ∧ ∀ k o, objs' !! k = Some o
             ↔ objs !! k = Some o
               ∨ (k ∈ to_register <$> regs
                  ∧ ReflectionAnalysis.get_abstract_object ra k insn = Some o
                  ∧ is_reflection_output o = true).
Proof.
  intros Ha. revert objs.
  induction regs as [|i rest IH]; intros objs Hc.
  { exists objs. split; [done|]. split; [done|]. intros k o. simpl.
    rewrite elem_of_nil. tauto. }
  simpl.
  destruct (get_reflection_site_spec ra a (to_register i) insn objs Ha Hc)
    as (objs1 & -> & Hc1 & H1).
  simpl. destruct (IH objs1 Hc1) as (objs' & -> & Hc' & H').
  exists objs'. split; [done|]. split; [done|].
  intros k o. rewrite H', H1, elem_of_cons. tauto.
Qed.

Lemma site_exact_computed ra a reg_size insn :
  ReflectionAnalysis.m_analyzer ra = Some a →
  ∃ objs,
    (ReflectionAnalysis.collect_registers ra insn
       (N.of_nat <$> seq 0 (N.to_nat reg_size)) ∅
     ≫= ReflectionAnalysis.get_reflection_site ra RESULT_REGISTER insn)
    = Ok objs
    ∧ site_exact ra reg_size insn objs.
Proof.
  intros Ha.
  destruct (collect_registers_spec ra a insn
              (N.of_nat <$> seq 0 (N.to_nat reg_size)) ∅ Ha)
    as (objs1 & -> & Hc1 & H1); [by intros k o; rewrite lookup_empty|].
  simpl.
  destruct (get_reflection_site_spec ra a RESULT_REGISTER insn objs1 Ha Hc1)
    as (objs & -> & _ & H2).
  exists objs. split; [done|].
  intros reg o. rewrite H2, H1, lookup_empty.
  unfold queried_registers.
  rewrite elem_of_app, list_elem_of_singleton, <- list_fmap_compose.
  split; [|tauto].
  intros [[[=]|?]|?]; tauto.
Qed.

(** Without an analyzer the loop faults at its first instruction. *)
Lemma collect_sites_no_analyzer ra reg_size insns acc sites :
  ReflectionAnalysis.m_analyzer ra = None →
  ReflectionAnalysis.collect_sites ra reg_size insns acc = Ok sites →
  insns = [] ∧ sites = acc.
Proof.
  intros Hnone. destruct insns as [|[insn i] rest]; [by intros [= <-]|].
  simpl.
  assert (∀ regs objs,
            ReflectionAnalysis.collect_registers ra insn regs objs
            ≫= ReflectionAnalysis.get_reflection_site ra RESULT_REGISTER insn
            = Abort NullDereference) as Hfault.
  { intros regs. induction regs as [|r regs IH]; intros objs; simpl.
    - unfold ReflectionAnalysis.get_reflection_site. by rewrite Hnone.
    - unfold ReflectionAnalysis.get_reflection_site at 1 2.
      by rewrite Hnone. }
  specialize (Hfault (N.of_nat <$> seq 0 (N.to_nat reg_size)) ∅).
  destruct (ReflectionAnalysis.collect_registers ra insn _ ∅) as [objs|];
    simpl in *; [|done].
  by rewrite Hfault.
Qed.

Lemma collect_sites_spec ra a reg_size insns acc :
  ReflectionAnalysis.m_analyzer ra = Some a →
  ∃ new,
    ReflectionAnalysis.collect_sites ra reg_size insns acc = Ok (acc ++ new)%list
    ∧ sublist (fst <$> new) (pointers insns)
    ∧ Forall (λ site, site.2 ≠ ∅
                      ∧ site_exact ra reg_size site.1 site.2) new
    ∧ ∀ insn objs,
        insn ∈ pointers insns → site_exact ra reg_size insn objs →
        objs ≠ ∅ → (insn, objs) ∈ new.
Proof.
  intros Ha. revert acc.
  induction insns as [|[insn i] rest IH]; intros acc.
  { exists []. rewrite app_nil_r. repeat split; try done.
    intros insn objs Hin. by apply elem_of_nil in Hin. }
  simpl.
  destruct (site_exact_computed ra a reg_size insn Ha) as (objs & Hobjs & Hex).
  destruct (ReflectionAnalysis.collect_registers ra insn _ ∅) as [objs1|];
    simpl in *; [|done].
  rewrite Hobjs. simpl.
  assert (∀ objs', site_exact ra reg_size insn objs' → objs' = objs) as Huniq.
  { intros objs' Hex'. apply map_eq. intros k.
    apply option_eq. intros o. by rewrite (Hex k o), (Hex' k o). }
  case_bool_decide as Hempty.
  - destruct (IH acc) as (new & -> & Hsub & Hall & Hcomplete).
    exists new. split; [done|]. split; [by apply sublist_cons|].
    split; [done|].
    intros insn' objs' Hin Hex' Hne. unfold pointers in Hin. simpl in Hin.
    apply elem_of_cons in Hin as [->|Hin]; [|by apply Hcomplete].
    rewrite (Huniq _ Hex') in Hne. congruence.
  - destruct (IH (acc ++ [(insn, objs)])%list) as (new & -> & Hsub & Hall & Hc).
    exists ((insn, objs) :: new). rewrite <- app_assoc. split; [done|].
    split; [by apply sublist_skip|]. split; [by constructor|].
    intros insn' objs' Hin Hex' Hne. unfold pointers in Hin. simpl in Hin.
    apply elem_of_cons in Hin as [->|Hin].
    + rewrite (Huniq _ Hex'). by left.
    + right. by apply Hc.
Qed.

(** X17: the reported sites are sound and in program order: the
    reported instructions follow the order of the code, and the map
    of a reported instruction is not empty and holds, for the registers
    of the method and the result register, exactly the reflection
    outputs that [get_abstract_object] answers there. *)
Theorem get_reflection_sites_sound ra code sites :
  get_code (ReflectionAnalysis.m_dex_method ra) = Some code →
  ReflectionAnalysis.get_reflection_sites ra = Ok sites →
  sublist (fst <$> sites) (pointers (code_insns code))
  ∧ ∀ insn objs,
      (insn, objs) ∈ sites →
      objs ≠ ∅ ∧ site_exact ra (get_registers_size code) insn objs.
Proof.
  unfold ReflectionAnalysis.get_reflection_sites. intros -> Hsites.
  destruct (ReflectionAnalysis.m_analyzer ra) as [a|] eqn:Ha.
  - destruct (collect_sites_spec ra a (get_registers_size code)
                (code_insns code) [] Ha) as (new & Hnew & Hsub & Hall & _).
    rewrite Hnew in Hsites. injection Hsites as <-. simpl.
    split; [done|]. intros insn objs Hin.
    rewrite Forall_forall in Hall. apply (Hall _ Hin).
  - apply collect_sites_no_analyzer in Hsites as [_ ->]; [|done].
    split; [apply sublist_nil_l|]. intros insn objs Hin.
    by apply elem_of_nil in Hin.
Qed.

(** X18: the reported sites are complete: every reflection output
    that a query answers for an instruction of the code, at a register
    of the method or at the result register, is reported in the map of
    that instruction. *)
Theorem get_reflection_sites_complete ra code sites insn reg o :
  get_code (ReflectionAnalysis.m_dex_method ra) = Some code →
  ReflectionAnalysis.get_reflection_sites ra = Ok sites →
  insn ∈ pointers (code_insns code) →
  reg ∈ queried_registers (get_registers_size code) →
  ReflectionAnalysis.get_abstract_object ra reg insn = Some o →
  is_reflection_output o = true →
  ∃ objs, (insn, objs) ∈ sites ∧ objs !! reg = Some o.
Proof.
  unfold ReflectionAnalysis.get_reflection_sites.
  intros -> Hsites Hinsn Hreg Hq Hout.
  destruct (ReflectionAnalysis.m_analyzer ra) as [a|] eqn:Ha.
  2:{ apply collect_sites_no_analyzer in Hsites as [Hnil _]; [|done].
      rewrite Hnil in Hinsn. by apply elem_of_nil in Hinsn. }
  destruct (collect_sites_spec ra a (get_registers_size code)
              (code_insns code) [] Ha) as (new & Hnew & _ & _ & Hcomplete).
  rewrite Hnew in Hsites. injection Hsites as <-. simpl.
  destruct (site_exact_computed ra a (get_registers_size code) insn Ha)
    as (objs & _ & Hex).
  assert (objs !! reg = Some o) as Hobj by by apply Hex.
  exists objs. split; [|done].
  apply Hcomplete; [done..|]. intros ->. by rewrite lookup_empty in Hobj.
Qed.

(** X19: [has_found_reflection] answers true exactly when some query
    for an instruction of the code, at a register of the method or at
    the result register, answers a reflection output. *)
Theorem has_found_reflection_spec ra code found :
  get_code (ReflectionAnalysis.m_dex_method ra) = Some code →
  ReflectionAnalysis.has_found_reflection ra = Ok found →
  (found = true
   ↔ ∃ insn reg o,
       insn ∈ pointers (code_insns code)
       ∧ reg ∈ queried_registers (get_registers_size code)
       ∧ ReflectionAnalysis.get_abstract_object ra reg insn = Some o
       ∧ is_reflection_output o = true).
Proof.
  intros Hcode. unfold ReflectionAnalysis.has_found_reflection.
  destruct (ReflectionAnalysis.get_reflection_sites ra) as [sites|] eqn:Hs;
    [simpl|done].
  intros [= <-].
  destruct (get_reflection_sites_sound ra code sites Hcode Hs) as [Hsub Hsound].
  split.
  - destruct sites as [|[insn objs] rest]; [done|]. intros _.
    destruct (Hsound insn objs) as [Hne Hex]; [by left|].
    apply map_choose in Hne as (reg & o & Hreg).
    apply Hex in Hreg as (Hq & Hget & Hout).
    exists insn, reg, o. repeat split; try done.
    apply sublist_subseteq in Hsub. apply Hsub. simpl. by left.
  - intros (insn & reg & o & Hin & Hreg & Hq & Hout).
    destruct (get_reflection_sites_complete ra code sites insn reg o)
      as (objs & Hsite & _); try done.
    destruct sites; [by apply elem_of_nil in Hsite|done].
Qed.

(** X20: [get_reflection_sites] fails only by dereferencing a null
    pointer, and only when the method has no code or the analysis no
    analyzer; on an analysis constructed for a method with code it
    returns its sites. *)
Theorem get_reflection_sites_faults pool engine dex_method ra :
  ReflectionAnalysis.new pool engine dex_method = Ok ra →
  (∀ f, ReflectionAnalysis.get_reflection_sites ra = Abort f →
        f = NullDereference ∧ get_code dex_method = None)
  ∧ (get_code dex_method ≠ None →
     ∃ sites, ReflectionAnalysis.get_reflection_sites ra = Ok sites).
Proof.
  unfold ReflectionAnalysis.new, ReflectionAnalysis.get_reflection_sites.
  destruct (get_code dex_method) as [code|] eqn:Hcode.
  - destruct (run pool engine dex_method (cfg code)) as [a|]; [simpl|done].
    intros [= <-]. simpl. rewrite Hcode.
    destruct (collect_sites_spec (ReflectionAnalysis.mkAnalysis dex_method
                                    (Some a))
                a (get_registers_size code) (code_insns code) [] eq_refl)
      as (new & -> & _).
    split; [done|eauto].
  - intros [= <-]. simpl. rewrite Hcode. split; [|done].
    by intros f [= <-].
Qed.

Lemma get_reflection_sites_sound_witness :
  sublist [13; 14; 15; 16] (pointers (code_insns chain_code)).
Proof.
  destruct (ReflectionAnalysis.get_reflection_sites chain_analysis)
    as [sites|f] eqn:Hsites; [|by vm_compute in Hsites].
  pose proof (get_reflection_sites_sound chain_analysis chain_code sites
                eq_refl Hsites) as [Hsub _].
  vm_compute in Hsites. injection Hsites as <-. exact Hsub.
Defined.

Lemma get_reflection_sites_complete_witness :
  ∃ sites objs,
    ReflectionAnalysis.get_reflection_sites chain_analysis = Ok sites
    ∧ (14, objs) ∈ sites
    ∧ objs !! 1 = Some (class_object (Some "Lcom/foo/Bar;") REFLECTION).
Proof.
  destruct (ReflectionAnalysis.get_reflection_sites chain_analysis)
    as [sites|f] eqn:Hsites; [|by vm_compute in Hsites].
  destruct (get_reflection_sites_complete chain_analysis chain_code sites
              14 1 (class_object (Some "Lcom/foo/Bar;") REFLECTION)
              eq_refl Hsites) as (objs & Hin & Hobj).
  - apply (bool_decide_unpack _). by vm_compute.
  - apply (bool_decide_unpack _). by vm_compute.
  - by vm_compute.
  - reflexivity.
  - eauto.
Defined.

Lemma has_found_reflection_spec_witness :
  ∃ insn reg o,
    insn ∈ pointers (code_insns chain_code)
    ∧ reg ∈ queried_registers (get_registers_size chain_code)
    ∧ ReflectionAnalysis.get_abstract_object chain_analysis reg insn = Some o
    ∧ is_reflection_output o = true.
Proof.
  apply (proj1 (has_found_reflection_spec chain_analysis chain_code true
                  eq_refl ltac:(by vm_compute))).
  reflexivity.
Defined.

Lemma get_reflection_sites_faults_witness :
  ∃ sites, ReflectionAnalysis.get_reflection_sites chain_analysis = Ok sites.
Proof.
  apply (get_reflection_sites_faults Scenario.pool straight_line_engine
           chain_method chain_analysis); [by vm_compute|discriminate].
Defined.

End ReflectionSites.
